(** * Cargo Clash: simulation core

    A shallow embedding of the tick engine (backend/app/game_engine.py),
    the combat and travel handlers (backend/app/routers/combat.py,
    backend/app/routers/vehicles.py) and the connection registry
    (backend/app/websocket_manager.py), with the properties the design
    document states about them.

    Conventions.
    - Python [int] is [Z]; [a // b] is [Z.div] (floor), [max]/[min] are
      [Z.max]/[Z.min].
    - Python [float] values are modelled by exact rationals [Q]; the
      literals 0.95, 1.05, 0.7, 0.8, 1.2, 0.5 ... are the rationals they
      denote, and [int(x)] is truncation towards zero ([py_int]).  For
      integer prices the products by 0.95 and 1.05 and the ratio tests
      against 1.5 and 0.7 come out the same in binary floating point;
      a product by 0.7 or by a roll can land one unit lower there at
      isolated inputs ([int(90 * 0.7)] is 62 in floating point, 63
      here).  No statement below rests on such an input.
    - [datetime] values are integers counting microseconds; a
      [timedelta] is a difference of such integers.
    - dictionaries are [gmap], Python sets are [gset].
    - the module [random] is a tape of raw words read through a cursor
      ([Random.source]); every call to the module consumes one word.
    - a handler works on the objects its session loaded; [Orm.flush]
      gives what its commit stores for a [JSON] attribute.  Functions
      that return rows say in their comment whether these are the
      session's objects or the rows as stored. *)

From Stdlib Require Import ZArith QArith String List Lia Lqa.
From stdpp Require Import base option gmap strings list fin_maps fin_sets.

Local Open Scope Z_scope.

(** ** Python arithmetic helpers *)

Module Py.

(** [int(x)] on a float: truncation towards zero. *)
Definition py_int (x : Q) : Z := Z.quot (Qnum x) (Z.pos (Qden x)).

(** [x > y] and [x < y] on floats. *)
Definition gt (x y : Q) : bool :=
  match Qcompare x y with Gt => true | _ => false end.
Definition lt (x y : Q) : bool :=
  match Qcompare x y with Lt => true | _ => false end.

(** Truthiness of an optional integer: [None] and [0] are falsy. *)
Definition truthy (x : option Z) : bool :=
  match x with
  | Some v => negb (v =? 0)
  | None => false
  end.

(** [x or y] where [x] is an optional integer. *)
Definition or_else (x : option Z) (y : Z) : Z :=
  match x with
  | Some v => if v =? 0 then y else v
  | None => y
  end.

(** [timedelta(minutes=m)], [timedelta(hours=h)] and a number of
    seconds, in microseconds. *)
Definition minutes (m : Z) : Z := m * 60000000.
Definition hours (h : Z) : Z := h * 3600000000.
Definition seconds (s : Z) : Z := s * 1000000.

End Py.

(** ** What a commit stores (the SQLAlchemy unit of work)

    A scalar column is written as assigned.  The [JSON] columns of
    models.py are declared without mutation tracking: such an attribute
    is written only when the value it holds at the flush differs, under
    [==], from the object the session keeps as its original.  That
    object is the loaded dictionary itself, so what was changed in it in
    place is part of [original] by then, and a dictionary that was only
    changed in place, or replaced by an equal one, is not written. *)

Module Orm.

Definition flush {A} `{EqDecision A} (stored original current : A) : A :=
  if decide (current = original) then stored else current.

End Orm.

(** ** The random module

    The generator is a tape of raw non-negative words.  [random()] keeps
    53 bits of the word and scales them into [0, 1), as CPython does;
    [uniform(a, b)] is [a + (b - a) * random()]; [randint(a, b)] reduces
    the word into the closed range; [choice(l)] indexes with the reduced
    word. *)

Module Random.

Record source := mkSource { draws : nat → Z; cursor : nat }.

Definition M (A : Type) : Type := source → A * source.

Definition ret {A} (x : A) : M A := λ g, (x, g).
Definition bind {A B} (m : M A) (k : A → M B) : M B :=
  λ g, let '(x, g') := m g in k x g'.

Definition next : M Z :=
  λ g, (draws g (cursor g), mkSource (draws g) (S (cursor g))).

Definition two53 : Z := 9007199254740992.

Definition random : M Q :=
  bind next (λ w, ret (Qmake (w mod two53) (Z.to_pos two53))).

Definition uniform (a b : Q) : M Q :=
  bind random (λ u, ret (a + (b - a) * u)%Q).

Definition randint (a b : Z) : M Z :=
  bind next (λ w, ret (a + w mod (b - a + 1))).

Definition choice {A} (d : A) (l : list A) : M A :=
  bind next (λ w, ret (nth (Z.to_nat (w mod Z.of_nat (length l))) l d)).

(** The value a computation returns on a given generator. *)
Definition run {A} (m : M A) (g : source) : A := (m g).1.

(** A generator whose every word is [w]. *)
Definition constant (w : Z) : source := mkSource (λ _, w) 0.

End Random.

#[global] Instance random_ret : MRet Random.M := @Random.ret.
#[global] Instance random_bind : MBind Random.M :=
  λ A B k m, Random.bind m k.

(** ** Models (backend/app/models.py) *)

Inductive MissionStatus :=
  AVAILABLE | ACCEPTED | IN_PROGRESS | COMPLETED | FAILED | EXPIRED.

Inductive CargoType :=
  FOOD | FUEL | ELECTRONICS | WEAPONS | ARTIFACTS | MATERIALS.

Inductive GameEventType :=
  MARKET_SHIFT | WEATHER_CHANGE | PIRATE_ATTACK | FACTION_WAR
| TRADE_ROUTE_BLOCKED.

#[global] Instance MissionStatus_eq_dec : EqDecision MissionStatus.
Proof. solve_decision. Defined.
#[global] Instance CargoType_eq_dec : EqDecision CargoType.
Proof. solve_decision. Defined.

Module Location.
Record t := mk {
  id : Z;
  name : string;
  x_coordinate : Q;
  y_coordinate : Q;
  danger_level : Z
}.
End Location.

Module Player.
Record t := mk {
  id : Z;
  credits : Z;
  reputation : Z;
  current_location_id : option Z
}.
End Player.

Module Vehicle.
Record t := mk {
  id : Z;
  owner_id : Z;
  speed : Z;
  current_fuel : Z;
  durability : Z;
  max_durability : Z;
  attack_power : Z;
  defense : Z;
  current_location_id : option Z;
  destination_id : option Z;
  is_traveling : bool;
  travel_start_time : option Z;
  estimated_arrival : option Z;
  current_cargo : option (gmap string Z)
}.

Definition set_durability (d : Z) (v : t) : t :=
  mk (id v) (owner_id v) (speed v) (current_fuel v) d (max_durability v)
     (attack_power v) (defense v) (current_location_id v)
     (destination_id v) (is_traveling v) (travel_start_time v)
     (estimated_arrival v) (current_cargo v).

Definition set_current_cargo (c : option (gmap string Z)) (v : t) : t :=
  mk (id v) (owner_id v) (speed v) (current_fuel v) (durability v)
     (max_durability v) (attack_power v) (defense v)
     (current_location_id v) (destination_id v) (is_traveling v)
     (travel_start_time v) (estimated_arrival v) c.
End Vehicle.

(** ** Combat (backend/app/routers/combat.py) *)

Module Combat.

(** [CombatAction.action_type] is a free string; only two values are
    told apart from the rest. *)
Record CombatAction := mkAction { action_type : string }.

Record CombatResult := mkResult {
  winner_id : option Z;
  damage_dealt : Z;
  damage_received : Z;
  cargo_lost : gmap string Z;
  cargo_gained : gmap string Z;
  credits_lost : Z;
  credits_gained : Z;
  experience_gained : Z
}.

Definition damage_multiplier (a : CombatAction) : Q :=
  if String.eqb (action_type a) "attack" then 1
  else if String.eqb (action_type a) "special_ability" then 3 # 2
  else 4 # 5.

(** [x or {}] on a JSON column holding a dictionary. *)
Definition cargo_or_empty (c : option (gmap string Z)) : gmap string Z :=
  match c with
  | Some m => m
  | None => ∅
  end.

(** The amount taken from one cargo line: [min(q, q // n)], kept only
    when positive. *)
Definition taken (n q : Z) : option Z :=
  let amount := Z.min q (q / n) in
  if 0 <? amount then Some amount else None.

Definition after_taken (n q : Z) : Z :=
  match taken n q with Some amount => q - amount | None => q end.

(** [attacker_cargo[k] = attacker_cargo.get(k, 0) + q] for every
    gained line. *)
Definition add_cargo (gained cargo : gmap string Z) : gmap string Z :=
  union_with (λ q old, Some (old + q)) gained cargo.

Definition opt_eqb (x y : option Z) : bool :=
  match x, y with
  | Some a, Some b => a =? b
  | None, None => true
  | _, _ => false
  end.

(** [x or {}] is the loaded dictionary itself when it is not empty,
    and a fresh dictionary otherwise. *)
Definition is_loaded_dict (c : option (gmap string Z)) : bool :=
  match c with
  | Some m => negb (bool_decide (m = ∅))
  | None => false
  end.

(** What the commit stores for [current_cargo], given the cargo the
    row was loaded with and the cargo the vehicle object holds at the
    commit.  Both combat functions read [current_cargo or {}], change
    that dictionary in place and assign it back: a loaded, non-empty
    dictionary is then its own original. *)
Definition commit_cargo (loaded in_memory : option (gmap string Z))
  : option (gmap string Z) :=
  let original := if is_loaded_dict loaded then in_memory else loaded in
  Orm.flush loaded original in_memory.

(** The vehicle row as the commit at the end of a combat function
    stores it: the scalar columns of the object, and the cargo that
    [commit_cargo] lets through. *)
Definition stored_vehicle (loaded in_memory : Vehicle.t) : Vehicle.t :=
  Vehicle.set_current_cargo
    (commit_cargo (Vehicle.current_cargo loaded)
                  (Vehicle.current_cargo in_memory))
    in_memory.

(** [_execute_combat] returns the two vehicle objects as the session
    holds them when the function returns (the session does not expire
    them on commit) and the result; [stored_vehicle] gives the rows its
    commit stores. *)
Definition _execute_combat (attacker_vehicle target_vehicle : Vehicle.t)
    (combat_action : CombatAction)
  : Random.M (Vehicle.t * Vehicle.t * CombatResult) :=
  let base_damage := Vehicle.attack_power attacker_vehicle in
  let damage_multiplier := damage_multiplier combat_action in
  damage_variance ← Random.uniform (4 # 5) (6 # 5);
  let final_damage :=
    Py.py_int (inject_Z base_damage * damage_multiplier * damage_variance)%Q in
  let damage_after_defense :=
    Z.max 1 (final_damage - Vehicle.defense target_vehicle) in
  let target_vehicle :=
    Vehicle.set_durability
      (Z.max 0 (Vehicle.durability target_vehicle - damage_after_defense))
      target_vehicle in
  let counter_damage :=
    Z.max 1 (Vehicle.attack_power target_vehicle
             - Vehicle.defense attacker_vehicle) in
  counter_variance ← Random.uniform (1 # 2) (4 # 5);
  let counter_damage :=
    Py.py_int (inject_Z counter_damage * counter_variance)%Q in
  let attacker_vehicle :=
    Vehicle.set_durability
      (Z.max 0 (Vehicle.durability attacker_vehicle - counter_damage))
      attacker_vehicle in
  let winner_id :=
    if Vehicle.durability target_vehicle =? 0
    then Some (Vehicle.owner_id attacker_vehicle)
    else if Vehicle.durability attacker_vehicle =? 0
         then Some (Vehicle.owner_id target_vehicle)
         else None in
  if opt_eqb winner_id (Some (Vehicle.owner_id attacker_vehicle)) then
    let target_cargo := cargo_or_empty (Vehicle.current_cargo target_vehicle) in
    let cargo_gained := omap (taken 4) target_cargo in
    let cargo_lost := cargo_gained in
    let target_cargo := after_taken 4 <$> target_cargo in
    let target_vehicle :=
      Vehicle.set_current_cargo (Some target_cargo) target_vehicle in
    let attacker_cargo :=
      cargo_or_empty (Vehicle.current_cargo attacker_vehicle) in
    let attacker_cargo := add_cargo cargo_gained attacker_cargo in
    let attacker_vehicle :=
      Vehicle.set_current_cargo (Some attacker_cargo) attacker_vehicle in
    mret (attacker_vehicle, target_vehicle,
                mkResult winner_id damage_after_defense counter_damage
                         cargo_lost cargo_gained 0 100 50)
  else
    mret (attacker_vehicle, target_vehicle,
                mkResult winner_id damage_after_defense counter_damage
                         ∅ ∅ 0 0 25).

(** The stat block [pirate_stats] built by [handle_pirate_encounter]. *)
Record PirateStats := mkPirate {
  pirate_attack_power : Z;
  pirate_defense : Z;
  pirate_durability : Z
}.

Definition pirate_stats_of (danger_level : Z) : PirateStats :=
  mkPirate (10 + danger_level * 5) (5 + danger_level * 3)
           (50 + danger_level * 10).

(** [_execute_pirate_combat] returns the vehicle object as the session
    holds it when the function returns, the stat block as the function
    leaves it, and the result; [stored_vehicle] gives the row its commit
    stores. *)
Definition _execute_pirate_combat (vehicle : Vehicle.t)
    (pirate_stats : PirateStats) (combat_action : CombatAction)
  : Random.M (Vehicle.t * PirateStats * CombatResult) :=
  let base_damage := Vehicle.attack_power vehicle in
  let damage_multiplier := damage_multiplier combat_action in
  damage_variance ← Random.uniform (4 # 5) (6 # 5);
  let player_damage :=
    Py.py_int (inject_Z base_damage * damage_multiplier * damage_variance)%Q in
  let player_damage :=
    Z.max 1 (player_damage - pirate_defense pirate_stats) in
  let pirate_damage :=
    Z.max 1 (pirate_attack_power pirate_stats - Vehicle.defense vehicle) in
  pirate_variance ← Random.uniform (7 # 10) 1;
  let pirate_damage :=
    Py.py_int (inject_Z pirate_damage * pirate_variance)%Q in
  let pirate_stats :=
    mkPirate (pirate_attack_power pirate_stats) (pirate_defense pirate_stats)
             (pirate_durability pirate_stats - player_damage) in
  let vehicle :=
    Vehicle.set_durability
      (Z.max 0 (Vehicle.durability vehicle - pirate_damage)) vehicle in
  let winner_id :=
    if pirate_durability pirate_stats <=? 0
    then Some (Vehicle.owner_id vehicle)
    else if Vehicle.durability vehicle =? 0 then None else None in
  if opt_eqb winner_id (Some (Vehicle.owner_id vehicle)) then
    credits_gained ← Random.randint 50 200;
    chance ← Random.random;
    let cargo_gained : gmap string Z :=
      if Py.lt chance (3 # 10) then {[ "artifacts"%string := 1 ]} else ∅ in
    mret (vehicle, pirate_stats,
          mkResult winner_id player_damage pirate_damage
                   ∅ cargo_gained 0 credits_gained 75)
  else
    let current_cargo := cargo_or_empty (Vehicle.current_cargo vehicle) in
    let cargo_lost := omap (taken 3) current_cargo in
    let current_cargo := after_taken 3 <$> current_cargo in
    let vehicle := Vehicle.set_current_cargo (Some current_cargo) vehicle in
    credits_lost ← Random.randint 100 500;
    mret (vehicle, pirate_stats,
          mkResult winner_id player_damage pirate_damage
                   cargo_lost ∅ credits_lost 0 25).

End Combat.

(** ** Market rows and world events (backend/app/models.py) *)

(** One value of the [price_history] dictionary.  Its keys are the
    ISO-8601 renderings of naive UTC instants; [isoformat] is injective
    and [fromisoformat] inverts it, so a key is identified with the
    instant it denotes. *)
Record PricePoint := mkPoint {
  point_buy_price : Z;
  point_sell_price : Z;
  point_supply : Z;
  point_demand : Z
}.

#[global] Instance PricePoint_eq_dec : EqDecision PricePoint.
Proof. solve_decision. Defined.

Module MarketPrice.
Record t := mk {
  id : Z;
  location_id : Z;
  cargo_type : CargoType;
  buy_price : Z;
  sell_price : Z;
  supply : Z;
  demand : Z;
  price_history : option (gmap Z PricePoint)
}.
End MarketPrice.

Module GameEvent.
Record t := mk {
  event_type : GameEventType;
  event_cargo_type : CargoType;
  shift_direction : string;
  price_multiplier : Q;
  affected_locations : list Z;
  duration_minutes : Z;
  severity : Z
}.
End GameEvent.

Module Mission.
Record t := mk {
  id : Z;
  reward_credits : Z;
  penalty_credits : option Z;
  status : MissionStatus;
  player_id : option Z;
  deadline : option Z
}.

Definition set_status (s : MissionStatus) (m : t) : t :=
  mk (id m) (reward_credits m) (penalty_credits m) s (player_id m)
     (deadline m).
End Mission.

(** A [GameEvent] row as the active-event index of the engine holds it:
    the event with its timing columns. *)
Module ActiveEvent.
Record t := mk {
  event : GameEvent.t;
  start_time : Z;
  end_time : option Z;
  is_active : bool
}.
End ActiveEvent.

(** ** The game engine (backend/app/game_engine.py)

    Only the state transitions are modelled; the notifications pushed
    through the connection registry do not feed back into the rows. *)

Module GameEngine.

(** *** [_update_vehicle_travels] *)

(** The [where] clause of the query: SQL comparison with a NULL
    arrival time selects nothing. *)
Definition has_arrived (current_time : Z) (vehicle : Vehicle.t) : bool :=
  Vehicle.is_traveling vehicle &&
  match Vehicle.estimated_arrival vehicle with
  | Some eta => eta <=? current_time
  | None => false
  end.

(** The body of the loop over the selected vehicles. *)
Definition arrive (vehicle : Vehicle.t) : Vehicle.t :=
  Vehicle.mk (Vehicle.id vehicle) (Vehicle.owner_id vehicle)
    (Vehicle.speed vehicle) (Vehicle.current_fuel vehicle)
    (Vehicle.durability vehicle) (Vehicle.max_durability vehicle)
    (Vehicle.attack_power vehicle) (Vehicle.defense vehicle)
    (Vehicle.destination_id vehicle) None false None None
    (Vehicle.current_cargo vehicle).

Definition _update_vehicle_travels (current_time : Z)
    (vehicles : gmap Z Vehicle.t) : gmap Z Vehicle.t :=
  (λ vehicle,
     if has_arrived current_time vehicle then arrive vehicle else vehicle)
  <$> vehicles.

(** *** [_process_market_updates] *)

Definition history_or_empty (h : option (gmap Z PricePoint))
  : gmap Z PricePoint :=
  match h with
  | Some m => m
  | None => ∅
  end.

(** The price movement derived from the supply/demand ratio. *)
Definition adjust_price (supply demand price : Z) : Z :=
  let supply_demand_ratio := (inject_Z supply / inject_Z (Z.max demand 1))%Q in
  if Py.gt supply_demand_ratio (3 # 2)
  then Z.max 1 (Py.py_int (inject_Z price * (19 # 20))%Q)
  else if Py.lt supply_demand_ratio (7 # 10)
       then Py.py_int (inject_Z price * (21 # 20))%Q
       else price.

(** The history bookkeeping at the end of the loop body. *)
Definition record_history (current_time : Z) (point : PricePoint)
    (h : option (gmap Z PricePoint)) : gmap Z PricePoint :=
  let price_history := history_or_empty h in
  let price_history := <[current_time := point]> price_history in
  let cutoff_time := current_time - Py.hours 24 in
  filter (λ entry, cutoff_time < entry.1) price_history.

(** The loop body once the two deltas are drawn: the row object as the
    session holds it after the body. *)
Definition apply_market_change (current_time supply_change demand_change : Z)
    (price : MarketPrice.t) : MarketPrice.t :=
  let supply := Z.max 0 (MarketPrice.supply price + supply_change) in
  let demand := Z.max 0 (MarketPrice.demand price + demand_change) in
  let buy_price := adjust_price supply demand (MarketPrice.buy_price price) in
  let sell_price := adjust_price supply demand (MarketPrice.sell_price price) in
  MarketPrice.mk (MarketPrice.id price) (MarketPrice.location_id price)
    (MarketPrice.cargo_type price) buy_price sell_price supply demand
    (Some (record_history current_time
             (mkPoint buy_price sell_price supply demand)
             (MarketPrice.price_history price))).

Definition update_market_price (current_time : Z) (price : MarketPrice.t)
  : Random.M MarketPrice.t :=
  supply_change ← Random.randint (-10) 10;
  demand_change ← Random.randint (-10) 10;
  mret (apply_market_change current_time supply_change demand_change price).

Fixpoint update_market_prices (current_time : Z)
    (market_prices : list MarketPrice.t) : Random.M (list MarketPrice.t) :=
  match market_prices with
  | [] => mret []
  | price :: rest =>
      price' ← update_market_price current_time price;
      rest' ← update_market_prices current_time rest;
      mret (price' :: rest')
  end.

(** What the commit after the loop stores for [price_history].  When
    the loaded history is a non-empty dictionary, the loop body writes
    the new point into that dictionary in place, so the session's
    original holds the point by the time of the flush; a missing or
    empty history is first replaced by a fresh dictionary and the loaded
    value stays as it was. *)
Definition stored_history (current_time : Z) (point : PricePoint)
    (loaded in_memory : option (gmap Z PricePoint))
  : option (gmap Z PricePoint) :=
  let original :=
    match loaded with
    | Some m =>
        if decide (m = ∅) then loaded
        else Some (<[current_time := point]> m)
    | None => loaded
    end in
  Orm.flush loaded original in_memory.

(** A market row as the commit stores it: the scalar columns of the
    object the loop body left, and the history that [stored_history]
    lets through. *)
Definition stored_market_price (current_time : Z)
    (loaded in_memory : MarketPrice.t) : MarketPrice.t :=
  MarketPrice.mk (MarketPrice.id in_memory)
    (MarketPrice.location_id in_memory) (MarketPrice.cargo_type in_memory)
    (MarketPrice.buy_price in_memory) (MarketPrice.sell_price in_memory)
    (MarketPrice.supply in_memory) (MarketPrice.demand in_memory)
    (stored_history current_time
       (mkPoint (MarketPrice.buy_price in_memory)
                (MarketPrice.sell_price in_memory)
                (MarketPrice.supply in_memory)
                (MarketPrice.demand in_memory))
       (MarketPrice.price_history loaded)
       (MarketPrice.price_history in_memory)).

(** The engine keeps [last_market_update]; the simulation runs at most
    once every 300 seconds.  The rows returned are the rows as stored by
    the commit that follows the loop. *)
Definition _process_market_updates (current_time last_market_update : Z)
    (market_prices : list MarketPrice.t)
  : Random.M (Z * list MarketPrice.t) :=
  if current_time - last_market_update <? Py.seconds 300
  then mret (last_market_update, market_prices)
  else
    market_prices' ← update_market_prices current_time market_prices;
    mret (current_time,
          zip_with (stored_market_price current_time)
                   market_prices market_prices').

(** *** [_create_market_shift_event] *)

Definition all_cargo_types : list CargoType :=
  [FOOD; FUEL; ELECTRONICS; WEAPONS; ARTIFACTS; MATERIALS].

Definition in_ (x : Z) (l : list Z) : bool := bool_decide (x ∈ l).

Definition apply_shift (location_ids : list Z) (cargo_type : CargoType)
    (multiplier : Q) (price : MarketPrice.t) : MarketPrice.t :=
  if in_ (MarketPrice.location_id price) location_ids
     && bool_decide (MarketPrice.cargo_type price = cargo_type)
  then
    MarketPrice.mk (MarketPrice.id price) (MarketPrice.location_id price)
      (MarketPrice.cargo_type price)
      (Py.py_int (inject_Z (MarketPrice.buy_price price) * multiplier)%Q)
      (Py.py_int (inject_Z (MarketPrice.sell_price price) * multiplier)%Q)
      (MarketPrice.supply price) (MarketPrice.demand price)
      (MarketPrice.price_history price)
  else price.

Definition _create_market_shift_event (location_ids : list Z)
    (market_prices : list MarketPrice.t)
  : Random.M (GameEvent.t * list MarketPrice.t) :=
  cargo_type ← Random.choice FOOD all_cargo_types;
  shift_direction ← Random.choice "surge"%string ["surge"; "crash"]%string;
  severity ← Random.randint 3 7;
  let event :=
    GameEvent.mk MARKET_SHIFT cargo_type shift_direction
      (if String.eqb shift_direction "surge" then 3 # 2 else 7 # 10)
      location_ids 60 severity in
  let multiplier := GameEvent.price_multiplier event in
  mret (event, apply_shift location_ids cargo_type multiplier <$> market_prices).

(** *** [_check_mission_deadlines] *)

Definition is_expired (current_time : Z) (mission : Mission.t) : bool :=
  (bool_decide (Mission.status mission = ACCEPTED)
   || bool_decide (Mission.status mission = IN_PROGRESS))
  && match Mission.deadline mission with
     | Some d => d <=? current_time
     | None => false
     end.

Definition penalty_of (mission : Mission.t) : Z :=
  Py.or_else (Mission.penalty_credits mission)
             (Mission.reward_credits mission / 4).

Definition penalise (penalty : Z) (player : Player.t) : Player.t :=
  Player.mk (Player.id player)
    (Z.max 0 (Player.credits player - penalty))
    (Z.max 0 (Player.reputation player - 2))
    (Player.current_location_id player).

(** The body of the loop over the expired missions; [mission.player]
    is the row the foreign key points at, if any. *)
Definition fail_mission (mission : Mission.t) (players : gmap Z Player.t)
  : Mission.t * gmap Z Player.t :=
  let mission' := Mission.set_status FAILED mission in
  match Mission.player_id mission with
  | Some pid =>
      match players !! pid with
      | Some player =>
          let penalty := penalty_of mission in
          (mission', <[pid := penalise penalty player]> players)
      | None => (mission', players)
      end
  | None => (mission', players)
  end.

Fixpoint _check_mission_deadlines (current_time : Z)
    (missions : list Mission.t) (players : gmap Z Player.t)
  : list Mission.t * gmap Z Player.t :=
  match missions with
  | [] => ([], players)
  | mission :: rest =>
      if is_expired current_time mission then
        let '(mission', players') := fail_mission mission players in
        let '(rest', players'') :=
          _check_mission_deadlines current_time rest players' in
        (mission' :: rest', players'')
      else
        let '(rest', players') :=
          _check_mission_deadlines current_time rest players in
        (mission :: rest', players')
  end.

(** *** [_check_travel_encounters]

    [current_location] is the location object loaded with the vehicle;
    the result tells whether a [pirate_encounter] message is sent. *)

Definition _check_travel_encounters (current_location : option Location.t)
  : Random.M bool :=
  match current_location with
  | None => mret false
  | Some location =>
      let danger_level := Location.danger_level location in
      let encounter_chance := (inject_Z danger_level * (1 # 20))%Q in
      roll ← Random.random;
      mret (Py.lt roll encounter_chance)
  end.

(** *** [_process_active_events] *)

(** The two tests of the first loop: an end time that has passed, or
    else a non-zero duration that has run out. *)
Definition event_expired (current_time : Z) (e : ActiveEvent.t) : bool :=
  let by_end :=
    match ActiveEvent.end_time e with
    | Some end_time => end_time <? current_time
    | None => false
    end in
  if by_end then true
  else if negb (GameEvent.duration_minutes (ActiveEvent.event e) =? 0)
       then ActiveEvent.start_time e
            + Py.minutes (GameEvent.duration_minutes (ActiveEvent.event e))
            <? current_time
       else false.

(** The writes of the second loop to an expired event. *)
Definition end_event (current_time : Z) (e : ActiveEvent.t) : ActiveEvent.t :=
  ActiveEvent.mk (ActiveEvent.event e) (ActiveEvent.start_time e)
                 (Some current_time) false.

(** The index of active events after the sweep, and the events it
    ended (the rows committed as inactive). *)
Definition _process_active_events (current_time : Z)
    (active_events : gmap Z ActiveEvent.t)
  : gmap Z ActiveEvent.t * gmap Z ActiveEvent.t :=
  let expired_events :=
    filter (λ entry, event_expired current_time entry.2 = true)
           active_events in
  (filter (λ entry, expired_events !! entry.1 = None) active_events,
   end_event current_time <$> expired_events).

End GameEngine.

(** ** Vehicle routes (backend/app/routers/vehicles.py) *)

Inductive Exception :=
| HTTPException (status_code : Z) (detail : string)
| ZeroDivisionError.

Record TravelRequest := mkTravelRequest {
  request_vehicle_id : Z;
  request_destination_id : Z
}.

Record TravelResponse := mkTravelResponse {
  success : bool;
  message : string;
  response_estimated_arrival : option Z;
  fuel_cost : Z
}.

Record RepairResponse := mkRepairResponse {
  repair_message : string;
  repair_cost : Z;
  current_durability : Z
}.

Record DB := mkDB {
  vehicles : gmap Z Vehicle.t;
  locations : gmap Z Location.t
}.

Module Vehicles.

(** [user.vehicles]: the rows owned by the user. *)
Definition user_vehicles (db : DB) (user : Player.t) : list Vehicle.t :=
  filter (λ v, Vehicle.owner_id v = Player.id user)
         ((map_to_list (vehicles db)).*2).

(** [PermissionChecker.can_access_vehicle] (backend/app/auth.py). *)
Definition can_access_vehicle (db : DB) (user : Player.t) (vehicle_id : Z)
  : bool :=
  existsb (λ v, Vehicle.id v =? vehicle_id) (user_vehicles db user).

(** [vehicle.current_location], loaded with the vehicle. *)
Definition current_location (db : DB) (vehicle : Vehicle.t)
  : option Location.t :=
  lid ← Vehicle.current_location_id vehicle; locations db !! lid.

Definition begin_journey (destination_id start eta fuel_cost : Z)
    (vehicle : Vehicle.t) : Vehicle.t :=
  Vehicle.mk (Vehicle.id vehicle) (Vehicle.owner_id vehicle)
    (Vehicle.speed vehicle) (Vehicle.current_fuel vehicle - fuel_cost)
    (Vehicle.durability vehicle) (Vehicle.max_durability vehicle)
    (Vehicle.attack_power vehicle) (Vehicle.defense vehicle)
    (Vehicle.current_location_id vehicle) (Some destination_id) true
    (Some start) (Some eta) (Vehicle.current_cargo vehicle).

Section StartTravel.

(** The floating-point square root [x ** 0.5]. *)
Variable fsqrt : Q → Q.

Definition distance_between (origin destination : Location.t) : Q :=
  fsqrt ((Location.x_coordinate destination
          - Location.x_coordinate origin) ^ 2
         + (Location.y_coordinate destination
            - Location.y_coordinate origin) ^ 2)%Q.

(** [now] and [now'] are the two readings of [datetime.utcnow()]
    taken while the journey is written to the vehicle. *)
Definition start_travel (now now' : Z) (db : DB) (vehicle_id : Z)
    (travel_request : TravelRequest) (current_user : Player.t)
  : DB * (Exception + TravelResponse) :=
  match vehicles db !! vehicle_id with
  | None => (db, inl (HTTPException 404 "Vehicle not found"))
  | Some vehicle =>
    if negb (can_access_vehicle db current_user vehicle_id)
    then (db, inl (HTTPException 403 "Access denied"))
    else if Vehicle.is_traveling vehicle
    then (db, inl (HTTPException 400 "Vehicle is already traveling"))
    else
      match locations db !! request_destination_id travel_request with
      | None => (db, inl (HTTPException 404 "Destination not found"))
      | Some destination =>
        match current_location db vehicle with
        | None =>
            (db, inl (HTTPException 400 "Vehicle has no current location"))
        | Some origin =>
          let distance := distance_between origin destination in
          if Vehicle.speed vehicle =? 0
          then (db, inl ZeroDivisionError)
          else
            let travel_time_hours :=
              (distance / inject_Z (Vehicle.speed vehicle))%Q in
            let travel_time_minutes :=
              Py.py_int (travel_time_hours * 60)%Q in
            let fuel_cost := Py.py_int (distance * (1 # 10))%Q in
            if Vehicle.current_fuel vehicle <? fuel_cost
            then
              (db, inl (HTTPException 400 "Insufficient fuel for journey"))
            else
              let estimated_arrival :=
                now' + Py.minutes travel_time_minutes in
              let vehicle :=
                begin_journey (Location.id destination) now
                              estimated_arrival fuel_cost vehicle in
              (mkDB (<[vehicle_id := vehicle]> (vehicles db))
                    (locations db),
               inr (mkTravelResponse true
                      ("Travel started to " ++ Location.name destination)
                      (Some estimated_arrival) fuel_cost))
        end
      end
  end.

End StartTravel.

(** *** [repair_vehicle] *)

Definition repair (vehicle : Vehicle.t) : Vehicle.t :=
  Vehicle.set_durability (Vehicle.max_durability vehicle) vehicle.

Definition pay (amount : Z) (player : Player.t) : Player.t :=
  Player.mk (Player.id player) (Player.credits player - amount)
            (Player.reputation player) (Player.current_location_id player).

Definition repair_vehicle (db : DB) (vehicle_id : Z) (current_user : Player.t)
  : DB * Player.t * (Exception + RepairResponse) :=
  match vehicles db !! vehicle_id with
  | None => (db, current_user, inl (HTTPException 404 "Vehicle not found"))
  | Some vehicle =>
    if negb (can_access_vehicle db current_user vehicle_id)
    then (db, current_user, inl (HTTPException 403 "Access denied"))
    else
      let damage :=
        Vehicle.max_durability vehicle - Vehicle.durability vehicle in
      let repair_cost := damage * 5 in
      if repair_cost =? 0
      then (db, current_user,
            inl (HTTPException 400 "Vehicle doesn't need repairs"))
      else if Player.credits current_user <? repair_cost
      then (db, current_user,
            inl (HTTPException 400 "Insufficient credits for repairs"))
      else
        let vehicle := repair vehicle in
        (mkDB (<[vehicle_id := vehicle]> (vehicles db)) (locations db),
         pay repair_cost current_user,
         inr (mkRepairResponse "Vehicle repaired successfully" repair_cost
                               (Vehicle.durability vehicle)))
  end.

(** The travel-state invariant of a vehicle row. *)
Definition travel_invariant (vehicle : Vehicle.t) : Prop :=
  Vehicle.is_traveling vehicle = true ↔
  is_Some (Vehicle.destination_id vehicle)
  ∧ is_Some (Vehicle.estimated_arrival vehicle).

End Vehicles.

(** ** The connection registry (backend/app/websocket_manager.py) *)

Module WebSocketManager.

(** A channel handle; only its identity matters here. *)
Definition WebSocket := Z.

Record t := mk {
  active_connections : gmap Z WebSocket;
  player_locations : gmap Z Z;
  location_groups : gmap Z (gset Z);
  alliance_groups : gmap Z (gset Z)
}.

Definition init : t := mk ∅ ∅ ∅ ∅.

(** [groups[key].discard(player_id)], then [del groups[key]] when the
    set became empty; nothing when [key] is not a group. *)
Definition discard_from (key player_id : Z) (groups : gmap Z (gset Z))
  : gmap Z (gset Z) :=
  match groups !! key with
  | Some members =>
      let members := members ∖ {[player_id]} in
      if decide (members = ∅) then delete key groups
      else <[key := members]> groups
  | None => groups
  end.

(** [if key not in groups: groups[key] = set()], then
    [groups[key].add(player_id)]. *)
Definition add_to (key player_id : Z) (groups : gmap Z (gset Z))
  : gmap Z (gset Z) :=
  <[key := default ∅ (groups !! key) ∪ {[player_id]}]> groups.

Definition disconnect (player_id : Z) (self : t) : t :=
  let active_connections := delete player_id (active_connections self) in
  let '(location_groups, player_locations) :=
    match player_locations self !! player_id with
    | Some location_id =>
        (discard_from location_id player_id (location_groups self),
         delete player_id (player_locations self))
    | None => (location_groups self, player_locations self)
    end in
  let alliance_groups :=
    (λ members : gset Z, members ∖ {[player_id]}) <$> alliance_groups self in
  let alliance_groups :=
    filter (λ group : Z * gset Z, group.2 ≠ ∅) alliance_groups in
  mk active_connections player_locations location_groups alliance_groups.

(** [send_ok] tells whether writing to the channel succeeds; a failed
    write is handled by disconnecting the player. *)
Definition send_personal_message (player_id : Z) (send_ok : bool)
    (self : t) : t :=
  match active_connections self !! player_id with
  | Some _ => if send_ok then self else disconnect player_id self
  | None => self
  end.

Definition connect (websocket : WebSocket) (player_id : Z) (send_ok : bool)
    (self : t) : t :=
  let self :=
    mk (<[player_id := websocket]> (active_connections self))
       (player_locations self) (location_groups self)
       (alliance_groups self) in
  send_personal_message player_id send_ok self.

Definition update_player_location (player_id location_id : Z) (self : t)
  : t :=
  let location_groups :=
    match player_locations self !! player_id with
    | Some old_location_id =>
        discard_from old_location_id player_id (location_groups self)
    | None => location_groups self
    end in
  mk (active_connections self)
     (<[player_id := location_id]> (player_locations self))
     (add_to location_id player_id location_groups)
     (alliance_groups self).

(** [alliance_id] and [old_alliance_id] default to [None]; both are
    tested for truthiness. *)
Definition update_player_alliance (player_id : Z)
    (alliance_id old_alliance_id : option Z) (self : t) : t :=
  let alliance_groups :=
    match old_alliance_id with
    | Some old =>
        if Py.truthy old_alliance_id
        then discard_from old player_id (alliance_groups self)
        else alliance_groups self
    | None => alliance_groups self
    end in
  let alliance_groups :=
    match alliance_id with
    | Some new =>
        if Py.truthy alliance_id
        then add_to new player_id alliance_groups
        else alliance_groups
    | None => alliance_groups
    end in
  mk (active_connections self) (player_locations self)
     (location_groups self) alliance_groups.

(** The registry states the program can be in: whatever the public
    operations build from the empty registry. *)
Inductive reachable : t → Prop :=
| reachable_init : reachable init
| reachable_connect websocket player_id send_ok self :
    reachable self → reachable (connect websocket player_id send_ok self)
| reachable_disconnect player_id self :
    reachable self → reachable (disconnect player_id self)
| reachable_send player_id send_ok self :
    reachable self →
    reachable (send_personal_message player_id send_ok self)
| reachable_location player_id location_id self :
    reachable self →
    reachable (update_player_location player_id location_id self)
| reachable_alliance player_id alliance_id old_alliance_id self :
    reachable self →
    reachable (update_player_alliance player_id alliance_id
                                      old_alliance_id self).

(** The read-only queries; Python returns the members as a list in no
    particular order, the model returns the set. *)
Definition get_players_at_location (location_id : Z) (self : t) : gset Z :=
  default ∅ (location_groups self !! location_id).

Definition get_alliance_members_online (alliance_id : Z) (self : t)
  : gset Z :=
  default ∅ (alliance_groups self !! alliance_id).

Definition is_player_connected (player_id : Z) (self : t) : bool :=
  bool_decide (is_Some (active_connections self !! player_id)).

(** The loop [for player_id in players_to_notify: send_personal_message];
    [send_ok] tells for each player whether writing to its channel
    succeeds. *)
Definition send_each (send_ok : Z → bool) (players : list Z) (self : t) : t :=
  foldl (λ self player_id,
           send_personal_message player_id (send_ok player_id) self)
        self players.

(** [exclude_player] defaults to [None] and is tested for truthiness. *)
Definition players_to_notify (members : gset Z) (exclude_player : option Z)
  : gset Z :=
  match exclude_player with
  | Some excluded =>
      if Py.truthy exclude_player then members ∖ {[excluded]} else members
  | None => members
  end.

Definition broadcast_to_location (location_id : Z)
    (exclude_player : option Z) (send_ok : Z → bool) (self : t) : t :=
  match location_groups self !! location_id with
  | None => self
  | Some members =>
      send_each send_ok
                (elements (players_to_notify members exclude_player)) self
  end.

(** Well-formed registries: groups are never empty, and a player
    sits in a location group exactly where [player_locations] says. *)
Definition groups_nonempty (groups : gmap Z (gset Z)) : Prop :=
  ∀ k (g : gset Z), groups !! k = Some g → g ≠ ∅.

Definition locations_consistent (self : t) : Prop :=
  ∀ l (g : gset Z) p,
    location_groups self !! l = Some g → p ∈ g →
    player_locations self !! p = Some l.

Definition registry_ok (self : t) : Prop :=
  groups_nonempty (location_groups self)
  ∧ groups_nonempty (alliance_groups self)
  ∧ locations_consistent self.

(** The location groups once the player has left its current one
    (the first step of [disconnect] and of [update_player_location]). *)
Definition without_player (p : Z) (self : t) : gmap Z (gset Z) :=
  match player_locations self !! p with
  | Some l => discard_from l p (location_groups self)
  | None => location_groups self
  end.

(** Every recorded location is backed by a membership. *)
Definition locations_complete (self : t) : Prop :=
  ∀ p l, player_locations self !! p = Some l →
         ∃ g : gset Z, location_groups self !! l = Some g ∧ p ∈ g.

End WebSocketManager.

(** ** Combat routes (backend/app/routers/combat.py) *)

Module CombatRoutes.

Import Combat.

Record CombatLog := mkLog {
  log_player_id : Z;
  log_opponent_type : string;
  log_location_id : option Z;
  log_combat_type : string;
  log_winner_id : option Z;
  log_damage_dealt : Z;
  log_damage_received : Z;
  log_cargo_lost : gmap string Z;
  log_cargo_gained : gmap string Z;
  log_credits_lost : Z;
  log_credits_gained : Z;
  log_pirate_stats : PirateStats;
  log_danger_level : Z
}.

(** [location.danger_level if location else 1]. *)
Definition danger_level_of (location : option Location.t) : Z :=
  match location with
  | Some l => Location.danger_level l
  | None => 1
  end.

(** The database returned holds the vehicle row as stored; the log
    holds the stat block after the exchange, which is the dictionary the
    combat function decremented. *)
Definition handle_pirate_encounter (db : DB) (vehicle_id : Z)
    (combat_action : CombatAction) (current_user : Player.t)
  : Random.M (DB * (Exception + CombatResult * CombatLog)) :=
  match vehicles db !! vehicle_id with
  | None =>
      mret (db, inl (HTTPException 404
                       "Vehicle not found or not owned by you"))
  | Some vehicle =>
    if negb (Vehicle.owner_id vehicle =? Player.id current_user)
    then mret (db, inl (HTTPException 404
                          "Vehicle not found or not owned by you"))
    else
      let location := Vehicles.current_location db vehicle in
      let danger_level := danger_level_of location in
      let pirate_stats := pirate_stats_of danger_level in
      out ← _execute_pirate_combat vehicle pirate_stats combat_action;
      let stored := stored_vehicle vehicle out.1.1 in
      let pirate_stats := out.1.2 in
      let combat_result := out.2 in
      let combat_log :=
        mkLog (Player.id current_user) "pirate"
              (Vehicle.current_location_id stored) "defense"
              (winner_id combat_result) (damage_dealt combat_result)
              (damage_received combat_result) (cargo_lost combat_result)
              (cargo_gained combat_result) (credits_lost combat_result)
              (credits_gained combat_result) pirate_stats danger_level in
      mret (mkDB (<[vehicle_id := stored]> (vehicles db)) (locations db),
            inr (combat_result, combat_log))
  end.

End CombatRoutes.

(** ** Observations used in the statements *)

(** The quantity of one cargo kind aboard: 0 when the line, or the
    whole cargo dictionary, is missing. *)
Definition quantity (cargo : option (gmap string Z)) (kind : string) : Z :=
  default 0 (Combat.cargo_or_empty cargo !! kind).

(** What one pass of the simulation loop does to a market row, for some
    pair of deltas in range. *)
Definition simulated (current_time : Z) (p p' : MarketPrice.t) : Prop :=
  ∃ supply_change demand_change,
    -10 ≤ supply_change ≤ 10 ∧ -10 ≤ demand_change ≤ 10 ∧
    p' = GameEngine.apply_market_change current_time supply_change
                                        demand_change p.

(** What a due run of the simulation stores for a market row: the row
    one pass of the loop leaves, for some pair of deltas in range, as
    the commit writes it. *)
Definition committed (current_time : Z) (p p' : MarketPrice.t) : Prop :=
  ∃ supply_change demand_change,
    -10 ≤ supply_change ≤ 10 ∧ -10 ≤ demand_change ≤ 10 ∧
    p' = GameEngine.stored_market_price current_time p
           (GameEngine.apply_market_change current_time supply_change
                                           demand_change p).

(** Two market rows that differ at most in their prices. *)
Definition same_market (p p' : MarketPrice.t) : Prop :=
  MarketPrice.id p' = MarketPrice.id p ∧
  MarketPrice.location_id p' = MarketPrice.location_id p ∧
  MarketPrice.cargo_type p' = MarketPrice.cargo_type p ∧
  MarketPrice.supply p' = MarketPrice.supply p ∧
  MarketPrice.demand p' = MarketPrice.demand p ∧
  MarketPrice.price_history p' = MarketPrice.price_history p.

(** A player row after a sweep, against the row before: the same
    player in the same place, balances that were not negative still not
    negative, and a reputation that did not grow. *)
Definition never_better (p p' : Player.t) : Prop :=
  Player.id p' = Player.id p ∧
  Player.current_location_id p' = Player.current_location_id p ∧
  (0 ≤ Player.credits p → 0 ≤ Player.credits p') ∧
  (0 ≤ Player.reputation p →
   0 ≤ Player.reputation p' ≤ Player.reputation p).

(** The player owns a mission of the list that the sweep selects. *)
Definition owes (current_time : Z) (missions : list Mission.t) (pid : Z)
  : Prop :=
  ∃ m, m ∈ missions ∧ GameEngine.is_expired current_time m = true
       ∧ Mission.player_id m = Some pid.

(** ** Sample data *)

Module Sample.

(** Two vehicles of different owners at the same location: a sturdy
    attacker and a target one hit away from destruction. *)
Definition attacker : Vehicle.t :=
  Vehicle.mk 1 10 50 100 10 100 100 0 (Some 1) None false None None None.
Definition target : Vehicle.t :=
  Vehicle.mk 2 20 50 100 1 100 100 0 (Some 1) None false None None None.

(** Two generators that agree on their first two words only. *)
Definition tape_a : Random.source :=
  Random.mkSource (λ n, match n with O => 5 | S O => 7 | _ => 11 end) 0.
Definition tape_b : Random.source :=
  Random.mkSource (λ n, match n with O => 5 | S O => 7 | _ => 13 end) 0.

(** A freighter with cargo aboard, facing pirates it cannot sink in
    one exchange. *)
Definition freighter : Vehicle.t :=
  Vehicle.mk 3 30 50 100 100 100 10 10 (Some 1) None false None None
    (Some {[ "food"%string := 40; "fuel"%string := 2 ]}).

(** A fuel market at location 1 whose prices sit on the floor. *)
Definition fuel_market : MarketPrice.t :=
  MarketPrice.mk 1 1 FUEL 1 1 100 100 None.

(** An oversupplied market with two days of history: one point 25
    hours old, one point an hour old (times in microseconds). *)
Definition day : Z := Py.hours 24.
Definition glut_market : MarketPrice.t :=
  MarketPrice.mk 2 1 FOOD 100 80 200 50
    (Some {[ 10 * day - Py.hours 25 := mkPoint 110 90 180 60;
             10 * day - Py.hours 1 := mkPoint 100 80 200 50 ]}).

(** A balanced market whose only history point is an hour old. *)
Definition steady_market : MarketPrice.t :=
  MarketPrice.mk 3 2 ELECTRONICS 500 450 100 100
    (Some {[ 10 * day - Py.hours 1 := mkPoint 500 450 100 100 ]}).

(** A world of two towns 50 apart, a truck parked in the first with
    a full tank and a van parked there with an almost empty one; both
    belong to player 10. *)
Definition harbour : Location.t := Location.mk 1 "Harbour" 0 0 1.
Definition citadel : Location.t := Location.mk 2 "Citadel" 30 40 3.
Definition truck : Vehicle.t :=
  Vehicle.mk 1 10 50 100 100 100 10 10 (Some 1) None false None None None.
Definition van : Vehicle.t :=
  Vehicle.mk 2 10 50 3 100 100 10 10 (Some 1) None false None None None.
Definition world : DB :=
  mkDB {[ 1 := truck; 2 := van ]} {[ 1 := harbour; 2 := citadel ]}.
Definition trader : Player.t := Player.mk 10 1000 5 (Some 1).

(** A square root that is exact on the perfect squares used here. *)
Definition isqrt (x : Q) : Q := inject_Z (Z.sqrt (Py.py_int x)).

(** A mission of player 10, in progress, one second past its
    deadline at time 5000, with the default reward and no penalty. *)
Definition late_mission : Mission.t :=
  Mission.mk 7 1000 None IN_PROGRESS (Some 10) (Some 4999).

(** A registry with players 7 and 8 connected at location 5, both
    in alliance 3. *)
Definition lobby : WebSocketManager.t :=
  WebSocketManager.update_player_alliance 8 (Some 3) None
    (WebSocketManager.update_player_alliance 7 (Some 3) None
       (WebSocketManager.update_player_location 8 5
          (WebSocketManager.update_player_location 7 5
             (WebSocketManager.connect 101 8 true
                (WebSocketManager.connect 100 7 true
                   WebSocketManager.init))))).

(** A heavily armed vehicle of player 10 with some cargo aboard. *)
Definition gunship : Vehicle.t :=
  Vehicle.mk 4 10 50 100 100 100 1000 10 (Some 1) None false None None
    (Some {[ "weapons"%string := 9 ]}).

(** A world like [world] where player 10 also owns a damaged vehicle
    that cannot move. *)
Definition wreck : Vehicle.t :=
  Vehicle.mk 5 10 0 100 50 100 10 10 (Some 1) None false None None None.
Definition scrapyard : DB :=
  mkDB {[ 1 := truck; 5 := wreck ]} {[ 1 := harbour; 2 := citadel ]}.

(** The freighter alone in the first town, and its owner. *)
Definition convoy : DB :=
  mkDB {[ 3 := freighter ]} {[ 1 := harbour; 2 := citadel ]}.
Definition skipper : Player.t := Player.mk 30 1000 5 (Some 1).

End Sample.

(** * Properties *)

(** ** Combat resolution *)

Section CombatFacts.

Import Combat.

Ltac run_random :=
  cbv [Random.run mbind random_bind Random.bind Random.uniform
       Random.random Random.randint Random.next mret random_ret
       Random.ret].

Lemma opt_eqb_owner (w : option Z) (o : Z) :
  opt_eqb w (Some o) = true ↔ w = Some o.
Proof.
  destruct w as [x|]; simpl; [|by split].
  rewrite Z.eqb_eq. split; congruence.
Qed.

(** C1, counterexample: both vehicles are destroyed in the exchange
    (an attack of 80 on durability 1, a counter-attack of 50 on
    durability 10) and the attacker, whose own durability is 0, is
    declared the winner. *)
Lemma execute_combat_mutual_destruction :
  let out := Random.run (_execute_combat Sample.attacker Sample.target
                           (mkAction "attack")) (Random.constant 0) in
  Vehicle.durability out.1.1 = 0 ∧
  Vehicle.durability out.1.2 = 0 ∧
  winner_id out.2 = Some (Vehicle.owner_id Sample.attacker) ∧
  Vehicle.owner_id Sample.attacker ≠ Vehicle.owner_id Sample.target.
Proof. vm_compute. repeat split; congruence. Qed.

(** C1, as the code has it: after the exchange both durabilities are
    at least 0; the attacker's owner is the winner whenever the
    target's durability is 0, whatever the attacker's own durability;
    the target's owner is the winner when the attacker's durability is
    0 and the target's is above 0; there is no winner when both are
    above 0. *)
Theorem execute_combat_winner (attacker target : Vehicle.t)
    (action : CombatAction) (g : Random.source) :
  let out := Random.run (_execute_combat attacker target action) g in
  let attacker' := out.1.1 in
  let target' := out.1.2 in
  0 ≤ Vehicle.durability attacker' ∧
  0 ≤ Vehicle.durability target' ∧
  (Vehicle.durability target' = 0 →
   winner_id out.2 = Some (Vehicle.owner_id attacker)) ∧
  (0 < Vehicle.durability target' → Vehicle.durability attacker' = 0 →
   winner_id out.2 = Some (Vehicle.owner_id target)) ∧
  (0 < Vehicle.durability target' → 0 < Vehicle.durability attacker' →
   winner_id out.2 = None).
Proof.
  run_random. unfold _execute_combat. run_random.
  set (dmg := Z.max 1 _). set (ctr := Py.py_int _).
  cbn [Vehicle.durability Vehicle.set_durability Vehicle.owner_id].
  set (dt := Z.max 0 (Vehicle.durability target - dmg)).
  set (da := Z.max 0 (Vehicle.durability attacker - ctr)).
  destruct (opt_eqb _ _) eqn:Hw;
    cbn [fst snd winner_id Vehicle.durability Vehicle.set_durability
         Vehicle.set_current_cargo];
    (split; [lia|]); (split; [lia|]);
    destruct (Z.eqb_spec dt 0); destruct (Z.eqb_spec da 0);
    repeat split; intros; try lia; try reflexivity.
Qed.

Lemma execute_combat_winner_witness :
  winner_id (Random.run (_execute_combat Sample.target Sample.freighter
                           (mkAction "defend")) (Random.constant 0)).2
  = Some (Vehicle.owner_id Sample.freighter).
Proof.
  destruct (execute_combat_winner Sample.target Sample.freighter
              (mkAction "defend") (Random.constant 0))
    as (_ & _ & _ & H & _).
  apply H; vm_compute; reflexivity.
Defined.

(** C8: the outcome of [_execute_combat] (both vehicles as it leaves
    them, and the whole result: damage dealt and received, winner,
    cargo transfer, credit reward) depends on the random source
    through the two rolls it draws only; two runs on the same
    snapshots and action whose sources give the same two rolls end
    equal, and each run draws exactly two rolls. *)
Theorem execute_combat_deterministic (attacker target : Vehicle.t)
    (action : CombatAction) (g1 g2 : Random.source) :
  Random.draws g1 (Random.cursor g1) = Random.draws g2 (Random.cursor g2) →
  Random.draws g1 (S (Random.cursor g1))
    = Random.draws g2 (S (Random.cursor g2)) →
  Random.run (_execute_combat attacker target action) g1
    = Random.run (_execute_combat attacker target action) g2
  ∧ Random.cursor (_execute_combat attacker target action g1).2
    = S (S (Random.cursor g1)).
Proof.
  intros H1 H2. unfold _execute_combat. run_random.
  cbn [Random.draws Random.cursor].
  rewrite H1, H2.
  destruct (opt_eqb _ _); split; reflexivity.
Qed.

Lemma execute_combat_deterministic_witness :
  Sample.tape_a ≠ Sample.tape_b ∧
  Random.run (_execute_combat Sample.attacker Sample.target
                (mkAction "special_ability")) Sample.tape_a
  = Random.run (_execute_combat Sample.attacker Sample.target
                  (mkAction "special_ability")) Sample.tape_b.
Proof.
  split.
  - intros E.
    assert (H : Random.draws Sample.tape_a 2%nat
                = Random.draws Sample.tape_b 2%nat) by (rewrite E; done).
    vm_compute in H. discriminate H.
  - apply (execute_combat_deterministic Sample.attacker Sample.target
             (mkAction "special_ability") Sample.tape_a Sample.tape_b);
      reflexivity.
Defined.

Lemma taken_third (q : Z) :
  0 ≤ q →
  taken 3 q = (if 0 <? q / 3 then Some (q / 3) else None)
  ∧ after_taken 3 q = q - q / 3.
Proof.
  intros Hq. unfold after_taken, taken.
  assert (q / 3 ≤ q) by (apply Z.div_le_upper_bound; lia).
  assert (0 ≤ q / 3) by (apply Z.div_pos; lia).
  rewrite Z.min_r by lia.
  destruct (Z.ltb_spec 0 (q / 3)); split; try reflexivity; lia.
Qed.

(** C10, counterexample: the freighter (40 food, 2 fuel aboard) meets
    the pirates of a town of danger level 1 and the exchange is a draw.
    The result and the combat log report 13 food lost and a credit loss
    of 100, and name no winner; the vehicle row the request stores still
    holds all 40 food and 2 fuel, and no balance is part of what the
    request reads or writes. *)
Lemma pirate_encounter_loss_not_stored :
  let out := Random.run (CombatRoutes.handle_pirate_encounter Sample.convoy 3
                           (mkAction "attack") Sample.skipper)
                        (Random.constant 0) in
  ∃ result log stored,
    out.2 = inr (result, log) ∧
    winner_id result = None ∧
    cargo_lost result = {[ "food"%string := 13 ]} ∧
    credits_lost result = 100 ∧
    CombatRoutes.log_cargo_lost log = {[ "food"%string := 13 ]} ∧
    CombatRoutes.log_credits_lost log = 100 ∧
    vehicles out.1 !! 3 = Some stored ∧
    0 < Vehicle.durability stored ∧
    Vehicle.current_cargo stored = Vehicle.current_cargo Sample.freighter ∧
    quantity (Vehicle.current_cargo stored) "food" = 40.
Proof. vm_compute. eexists _, _, _. repeat split; reflexivity. Qed.

(** C10, as the code has it: whenever the player's vehicle is not
    declared the winner of a pirate exchange (that is, whenever the
    pirates are left with durability above 0, the vehicle's own
    durability playing no part), the result names no winner and the loss
    branch runs: in the cargo dictionary of the vehicle object every
    line of quantity [q] loses [q // 3], reported in [cargo_lost] when
    it is positive, and the credit loss reported in [credits_lost] is a
    roll between 100 and 500; nothing is gained.  The vehicle returned
    is the object the session holds, and the credit loss is a field of
    the result: the function is given no player and no balance. *)
Theorem pirate_combat_loss_branch (vehicle : Vehicle.t)
    (pirates : PirateStats) (action : CombatAction) (g : Random.source) :
  let out := Random.run (_execute_pirate_combat vehicle pirates action) g in
  let cargo := cargo_or_empty (Vehicle.current_cargo vehicle) in
  winner_id out.2 ≠ Some (Vehicle.owner_id vehicle) →
  0 < pirate_durability out.1.2 ∧
  winner_id out.2 = None ∧
  cargo_lost out.2 = omap (taken 3) cargo ∧
  Vehicle.current_cargo out.1.1 = Some (after_taken 3 <$> cargo) ∧
  (∀ k q, cargo !! k = Some q → 0 ≤ q →
     (Vehicle.current_cargo out.1.1 ≫= (.!! k)) = Some (q - q / 3) ∧
     cargo_lost out.2 !! k = (if 0 <? q / 3 then Some (q / 3) else None)) ∧
  100 ≤ credits_lost out.2 ≤ 500 ∧
  cargo_gained out.2 = ∅ ∧ credits_gained out.2 = 0.
Proof.
  unfold _execute_pirate_combat. run_random.
  set (dmg := Z.max 1 _). set (ctr := Py.py_int _).
  cbn [pirate_durability Vehicle.durability Vehicle.set_durability
       Vehicle.owner_id].
  set (pd := pirate_durability pirates - dmg).
  destruct (opt_eqb _ _) eqn:Hw; cbn [fst snd winner_id]; intros Hnot.
  - apply opt_eqb_owner in Hw. congruence.
  - destruct (Z.leb_spec pd 0) as [Hle|Hgt].
    { simpl in Hw. rewrite Z.eqb_refl in Hw. discriminate. }
    cbn [pirate_durability cargo_lost cargo_gained credits_lost
         credits_gained Vehicle.current_cargo Vehicle.set_current_cargo
         Vehicle.set_durability].
    split; [lia|]. split; [by destruct (_ =? 0)|].
    split; [reflexivity|]. split; [reflexivity|].
    split.
    + intros k q Hk Hq. destruct (taken_third q Hq) as [Ht Ha].
      cbn [mbind option_bind]. rewrite lookup_fmap, lookup_omap, Hk.
      simpl. by rewrite Ht, Ha.
    + split; [|done].
      match goal with
      | |- context [?w `mod` (500 - 100 + 1)] =>
          pose proof (Z.mod_pos_bound w (500 - 100 + 1))
      end.
      lia.
Qed.

Lemma pirate_combat_loss_branch_witness :
  let out := Random.run (_execute_pirate_combat Sample.freighter
                           (pirate_stats_of 1) (mkAction "attack"))
                        (Random.constant 0) in
  0 < Vehicle.durability out.1.1 ∧
  0 < pirate_durability out.1.2 ∧
  cargo_lost out.2 !! "food"%string = Some 13 ∧
  100 ≤ credits_lost out.2 ≤ 500.
Proof.
  assert (Hw : winner_id
                 (Random.run (_execute_pirate_combat Sample.freighter
                                (pirate_stats_of 1) (mkAction "attack"))
                             (Random.constant 0)).2
               ≠ Some (Vehicle.owner_id Sample.freighter))
    by (vm_compute; discriminate).
  pose proof (pirate_combat_loss_branch Sample.freighter (pirate_stats_of 1)
                (mkAction "attack") (Random.constant 0) Hw)
    as (Hp & _ & _ & _ & Hline & Hc & _).
  split; [vm_compute; reflexivity|]. split; [exact Hp|].
  split; [|exact Hc].
  destruct (Hline "food"%string 40) as [_ Hl];
    [vm_compute; reflexivity | lia | exact Hl].
Defined.

End CombatFacts.

(** ** The economic simulation *)

Section MarketFacts.

Import GameEngine.

Ltac run_rolls :=
  cbv [Random.run mbind random_bind Random.bind mret random_ret Random.ret].

Lemma py_int_scale (p n : Z) (d : positive) :
  Py.py_int (inject_Z p * (n # d))%Q = (p * n) ÷ Z.pos d.
Proof. reflexivity. Qed.

Lemma gt_spec (x y : Q) : Py.gt x y = true ↔ (y < x)%Q.
Proof.
  unfold Py.gt. rewrite Qgt_alt.
  destruct (x ?= y)%Q; split; congruence.
Qed.

Lemma lt_spec (x y : Q) : Py.lt x y = true ↔ (x < y)%Q.
Proof.
  unfold Py.lt. rewrite Qlt_alt.
  destruct (x ?= y)%Q; split; congruence.
Qed.

(** The ratio tests, cross-multiplied. *)
Lemma ratio_gt (s d : Z) :
  1 ≤ d → ((3 # 2) < inject_Z s / inject_Z d)%Q ↔ 3 * d < 2 * s.
Proof.
  intros Hd. destruct d as [|d|d]; try lia.
  unfold Qlt, Qdiv, Qmult, Qinv, inject_Z. simpl. lia.
Qed.

Lemma ratio_lt (s d : Z) :
  1 ≤ d → (inject_Z s / inject_Z d < (7 # 10))%Q ↔ 10 * s < 7 * d.
Proof.
  intros Hd. destruct d as [|d|d]; try lia.
  unfold Qlt, Qdiv, Qmult, Qinv, inject_Z. simpl. lia.
Qed.

Lemma adjust_price_cases (supply demand price : Z) :
  let ratio := (inject_Z supply / inject_Z (Z.max demand 1))%Q in
  (((3 # 2) < ratio)%Q →
   adjust_price supply demand price
     = Z.max 1 (Py.py_int (inject_Z price * (19 # 20))%Q)) ∧
  ((ratio < (7 # 10))%Q →
   adjust_price supply demand price
     = Py.py_int (inject_Z price * (21 # 20))%Q) ∧
  (((7 # 10) <= ratio)%Q → (ratio <= (3 # 2))%Q →
   adjust_price supply demand price = price).
Proof.
  intros ratio. unfold adjust_price. fold ratio.
  destruct (Py.gt ratio (3 # 2)) eqn:Hg;
    [apply gt_spec in Hg | apply not_true_iff_false in Hg;
                           rewrite gt_spec in Hg].
  - repeat split; intros; try reflexivity.
    + exfalso. apply (Qlt_irrefl ratio).
      eapply Qlt_trans; [eassumption|]. eapply Qlt_trans; [|exact Hg].
      reflexivity.
    + exfalso. eapply Qlt_not_le; eassumption.
  - destruct (Py.lt ratio (7 # 10)) eqn:Hl;
      [apply lt_spec in Hl | apply not_true_iff_false in Hl;
                             rewrite lt_spec in Hl];
      repeat split; intros; try reflexivity; try contradiction.
    exfalso. eapply Qlt_not_le; eassumption.
Qed.

(** The oversupply branch keeps a price of at least 1 within 5% (and
    one unit of rounding) below the old price. *)
Lemma decay_bounds (price : Z) :
  1 ≤ price →
  let price' := Z.max 1 (Py.py_int (inject_Z price * (19 # 20))%Q) in
  1 ≤ price' ≤ price ∧ 19 * price - 20 < 20 * price'.
Proof.
  intros Hp. rewrite py_int_scale. rewrite Z.quot_div_nonneg by lia.
  pose proof (Z.div_mod (price * 19) 20 ltac:(lia)).
  pose proof (Z.mod_pos_bound (price * 19) 20 ltac:(lia)).
  cbv zeta. lia.
Qed.

Lemma update_market_price_deltas (current_time : Z) (price : MarketPrice.t)
    (g : Random.source) :
  ∃ supply_change demand_change,
    -10 ≤ supply_change ≤ 10 ∧ -10 ≤ demand_change ≤ 10 ∧
    Random.run (update_market_price current_time price) g
      = apply_market_change current_time supply_change demand_change price.
Proof.
  unfold update_market_price.
  cbv [Random.run mbind random_bind Random.bind Random.randint
       Random.next mret random_ret Random.ret].
  cbn [fst snd Random.draws Random.cursor].
  eexists _, _. split; [|split; [|reflexivity]].
  - pose proof (Z.mod_pos_bound (Random.draws g (Random.cursor g))
                  (10 - -10 + 1)). lia.
  - pose proof (Z.mod_pos_bound (Random.draws g (S (Random.cursor g)))
                  (10 - -10 + 1)). lia.
Qed.

Lemma record_history_lookup (current_time t : Z) (point : PricePoint)
    (h : option (gmap Z PricePoint)) (pt : PricePoint) :
  record_history current_time point h !! t = Some pt ↔
  current_time - Py.hours 24 < t ∧
  ((t = current_time ∧ pt = point) ∨
   (t ≠ current_time ∧ history_or_empty h !! t = Some pt)).
Proof.
  unfold record_history. rewrite map_lookup_filter_Some. cbn [fst].
  rewrite lookup_insert_Some. intuition congruence.
Qed.

Lemma update_market_prices_simulated (current_time : Z)
    (market_prices : list MarketPrice.t) (g : Random.source) :
  Forall2 (simulated current_time) market_prices
          (update_market_prices current_time market_prices g).1.
Proof.
  revert g. induction market_prices as [|p rest IH]; intros g.
  - constructor.
  - cbn [update_market_prices]. run_rolls.
    destruct (update_market_price_deltas current_time p g)
      as (sc & dc & Hsc & Hdc & Hrun). unfold Random.run in Hrun.
    destruct (update_market_price current_time p g) as [p' g1].
    cbn [fst] in Hrun. subst p'. specialize (IH g1).
    destruct (update_market_prices current_time rest g1) as [rest' g2].
    cbn [fst] in *. constructor; [|exact IH]. by exists sc, dc.
Qed.

(** A due run sets [last_market_update] and stores, for every row in
    order, the row that one pass of the loop leaves. *)
Lemma process_market_updates_committed (current_time last : Z)
    (market_prices : list MarketPrice.t) (g : Random.source) :
  Py.seconds 300 ≤ current_time - last →
  (Random.run (_process_market_updates current_time last market_prices)
              g).1 = current_time ∧
  Forall2 (committed current_time) market_prices
    (Random.run (_process_market_updates current_time last market_prices)
                g).2.
Proof.
  intros Hdue. unfold _process_market_updates.
  apply Z.ltb_ge in Hdue. rewrite Hdue. run_rolls.
  pose proof (update_market_prices_simulated current_time market_prices g)
    as Hsim.
  destruct (update_market_prices current_time market_prices g) as [ps g1].
  cbn [fst snd] in *. split; [reflexivity|].
  induction Hsim as [|p p' rest rest' (sc & dc & Hsc & Hdc & ->) _ IH];
    cbn [zip_with]; constructor; [|exact IH].
  by exists sc, dc.
Qed.

(** A column assigned a value while it still holds the loaded one is
    stored as assigned. *)
Lemma flush_same {A} `{EqDecision A} (stored current : A) :
  Orm.flush stored stored current = current.
Proof. unfold Orm.flush. by case_decide. Qed.

(** The history a pass stores is the 24-hour window it computed, unless
    the row was loaded with a non-empty history from which the pass
    pruned nothing: then the stored history is the loaded one. *)
Lemma stored_history_cases (current_time : Z) (point : PricePoint)
    (loaded : option (gmap Z PricePoint)) :
  let window := record_history current_time point loaded in
  let stored := stored_history current_time point loaded (Some window) in
  stored = Some window
  ∨ ∃ m, loaded = Some m ∧ m ≠ ∅ ∧ stored = Some m
         ∧ window = <[current_time := point]> m.
Proof.
  cbv zeta. unfold stored_history.
  destruct loaded as [m|]; [|left; apply flush_same].
  destruct (decide (m = ∅)) as [Hm|Hm]; [left; apply flush_same|].
  unfold Orm.flush. case_decide as Heq; [|by left].
  right. exists m. injection Heq as Heq. by repeat split.
Qed.

(** C5: in a due run of [_process_market_updates] every market row
    first has its supply and demand moved by random deltas between -10
    and 10 (both floored at 0); then, on the ratio of the new supply to
    the new demand (demand taken as at least 1): above 1.5 both prices
    become [max(1, int(price * 0.95))]; below 0.7 both become
    [int(price * 1.05)]; otherwise both are unchanged.  A row that
    starts at supply 200 and demand 50 always takes the first branch,
    and a price of at least 1 then stays at least 1 and drops by 5% up
    to one unit of rounding.  The run sets [last_market_update] to the
    current time and returns the rows, one per row and in order, as
    stored. *)
Theorem market_price_movement (current_time last : Z)
    (market_prices : list MarketPrice.t) (g : Random.source) :
  Py.seconds 300 ≤ current_time - last →
  let out := Random.run (_process_market_updates current_time last
                           market_prices) g in
  out.1 = current_time ∧
  Forall2
    (λ price price',
       let supply := MarketPrice.supply price' in
       let demand := MarketPrice.demand price' in
       let ratio := (inject_Z supply / inject_Z (Z.max demand 1))%Q in
       let decay p := Z.max 1 (Py.py_int (inject_Z p * (19 # 20))%Q) in
       let growth p := Py.py_int (inject_Z p * (21 # 20))%Q in
       let buy := MarketPrice.buy_price price in
       let sell := MarketPrice.sell_price price in
       let buy' := MarketPrice.buy_price price' in
       let sell' := MarketPrice.sell_price price' in
       MarketPrice.id price' = MarketPrice.id price ∧
       (∃ supply_change demand_change,
          -10 ≤ supply_change ≤ 10 ∧ -10 ≤ demand_change ≤ 10 ∧
          supply = Z.max 0 (MarketPrice.supply price + supply_change) ∧
          demand = Z.max 0 (MarketPrice.demand price + demand_change)) ∧
       (((3 # 2) < ratio)%Q → buy' = decay buy ∧ sell' = decay sell) ∧
       ((ratio < (7 # 10))%Q → buy' = growth buy ∧ sell' = growth sell) ∧
       (((7 # 10) <= ratio)%Q → (ratio <= (3 # 2))%Q →
        buy' = buy ∧ sell' = sell) ∧
       (MarketPrice.supply price = 200 → MarketPrice.demand price = 50 →
        buy' = decay buy ∧ sell' = decay sell ∧
        (1 ≤ buy → 1 ≤ buy' ≤ buy ∧ 19 * buy - 20 < 20 * buy') ∧
        (1 ≤ sell → 1 ≤ sell' ≤ sell ∧ 19 * sell - 20 < 20 * sell')))
    market_prices out.2.
Proof.
  intros Hdue.
  destruct (process_market_updates_committed current_time last market_prices
              g Hdue) as [Ht Hrows].
  cbv zeta. split; [exact Ht|].
  eapply Forall2_impl; [exact Hrows|].
  intros price price' (sc & dc & Hsc & Hdc & ->).
  cbn [stored_market_price apply_market_change MarketPrice.id
       MarketPrice.supply MarketPrice.demand MarketPrice.buy_price
       MarketPrice.sell_price].
  set (supply := Z.max 0 (MarketPrice.supply price + sc)).
  set (demand := Z.max 0 (MarketPrice.demand price + dc)).
  pose proof (adjust_price_cases supply demand (MarketPrice.buy_price price))
    as (Hb1 & Hb2 & Hb3).
  pose proof (adjust_price_cases supply demand (MarketPrice.sell_price price))
    as (Hs1 & Hs2 & Hs3).
  cbv zeta in *.
  split; [reflexivity|].
  split; [by exists sc, dc|].
  split; [by intros; split; auto|].
  split; [by intros; split; auto|].
  split; [by intros; split; auto|].
  intros Hs Hd.
  assert (Hr : ((3 # 2) < inject_Z supply / inject_Z (Z.max demand 1))%Q)
    by (apply ratio_gt; lia).
  rewrite (Hb1 Hr), (Hs1 Hr).
  split; [reflexivity|]. split; [reflexivity|].
  split; intros; by apply decay_bounds.
Qed.

Lemma market_price_movement_witness :
  let out := Random.run (_process_market_updates (10 * Sample.day) 0
                           [Sample.glut_market]) (Random.constant 0) in
  out.1 = 10 * Sample.day ∧
  MarketPrice.buy_price <$> out.2 = [95] ∧
  MarketPrice.sell_price <$> out.2 = [76].
Proof.
  pose proof (market_price_movement (10 * Sample.day) 0 [Sample.glut_market]
                (Random.constant 0) ltac:(vm_compute; discriminate)) as H.
  cbv zeta in *. destruct H as [Ht Hrows]. split; [exact Ht|].
  apply Forall2_cons_inv_l in Hrows as (row & rest & Hrow & Hrest & Heq).
  apply Forall2_nil_inv_l in Hrest. subst rest. rewrite Heq.
  destruct Hrow as (_ & _ & _ & _ & _ & H).
  destruct (H eq_refl eq_refl) as (Hb & Hs & _).
  cbn [fmap list_fmap]. by rewrite Hb, Hs.
Defined.

(** C6, the lost write: in a due run of [_process_market_updates], a
    row loaded with a non-empty history whose entries all lie within the
    last 24 hours is stored with exactly that history.  The loop body
    writes the new point into the loaded dictionary and assigns back a
    filtered copy that is equal to it, so the commit has nothing to
    write for the column; unless the row already held an entry for the
    current time, the stored history has none. *)
Theorem price_history_lost_write (current_time last : Z)
    (market_prices : list MarketPrice.t) (g : Random.source) :
  Py.seconds 300 ≤ current_time - last →
  Forall2
    (λ price price',
       ∀ history,
         MarketPrice.price_history price = Some history →
         history ≠ ∅ →
         (∀ t pt, history !! t = Some pt →
                  current_time - Py.hours 24 < t) →
         MarketPrice.price_history price' = Some history)
    market_prices
    (Random.run (_process_market_updates current_time last market_prices)
                g).2.
Proof.
  intros Hdue.
  destruct (process_market_updates_committed current_time last market_prices
              g Hdue) as [_ Hrows].
  eapply Forall2_impl; [exact Hrows|].
  intros price price' (sc & dc & _ & _ & ->) history Hh Hne Hall.
  cbn [stored_market_price apply_market_change MarketPrice.price_history
       MarketPrice.supply MarketPrice.demand MarketPrice.buy_price
       MarketPrice.sell_price].
  rewrite Hh. unfold stored_history.
  destruct (decide (history = ∅)) as [|_]; [done|].
  unfold Orm.flush. rewrite decide_True; [done|].
  f_equal. unfold record_history. cbn [history_or_empty].
  apply map_filter_id.
  intros t pt [[-> _]|[_ Hl]]%lookup_insert_Some; cbn [fst];
    [unfold Py.hours; lia | by eapply Hall].
Qed.

Lemma price_history_lost_write_witness :
  let out := Random.run (_process_market_updates (10 * Sample.day) 0
                           [Sample.steady_market]) (Random.constant 0) in
  ∃ row history,
    out.2 = [row] ∧
    MarketPrice.price_history Sample.steady_market = Some history ∧
    MarketPrice.price_history row = Some history ∧
    history !! (10 * Sample.day) = None.
Proof.
  pose proof (price_history_lost_write (10 * Sample.day) 0
                [Sample.steady_market] (Random.constant 0)
                ltac:(vm_compute; discriminate)) as Hrows.
  apply Forall2_cons_inv_l in Hrows as (row & rest & Hrow & Hrest & Heq).
  apply Forall2_nil_inv_l in Hrest. subst rest.
  exists row, {[ 10 * Sample.day - Py.hours 1 := mkPoint 500 450 100 100 ]}.
  split; [exact Heq|]. split; [reflexivity|].
  split; [|vm_compute; reflexivity].
  apply Hrow; [reflexivity | apply map_non_empty_singleton |].
  intros t pt [<- _]%lookup_singleton_Some. vm_compute. reflexivity.
Defined.

(** The periodic simulation keeps prices on or above the floor. *)
Lemma adjust_price_floor (supply demand price : Z) :
  1 ≤ price → 1 ≤ adjust_price supply demand price.
Proof.
  intros Hp. unfold adjust_price.
  destruct (Py.gt _ _); [lia|]. destruct (Py.lt _ _); [|lia].
  rewrite py_int_scale, Z.quot_div_nonneg by lia.
  apply Z.div_le_lower_bound; lia.
Qed.

Lemma process_market_updates_floor (current_time last : Z)
    (market_prices : list MarketPrice.t) (g : Random.source) :
  Forall (λ p, 1 ≤ MarketPrice.buy_price p ∧ 1 ≤ MarketPrice.sell_price p)
         market_prices →
  Forall (λ p, 1 ≤ MarketPrice.buy_price p ∧ 1 ≤ MarketPrice.sell_price p)
         (Random.run (_process_market_updates current_time last
                        market_prices) g).2.
Proof.
  intros Hall. unfold _process_market_updates, Random.run.
  destruct (_ <? _); [exact Hall|].
  cbv [mbind random_bind Random.bind mret random_ret Random.ret].
  destruct (update_market_prices current_time market_prices g)
    as [ps g'] eqn:E. cbn [fst snd].
  revert g ps g' E. induction Hall as [|p rest [Hb Hs] _ IH];
    intros g ps g' E; cbn [update_market_prices] in E.
  - injection E as <- _. constructor.
  - cbv [mbind random_bind Random.bind mret random_ret Random.ret] in E.
    destruct (update_market_price current_time p g) as [p' g1] eqn:E1.
    destruct (update_market_prices current_time rest g1) as [r' g2] eqn:E2.
    injection E as <- _. constructor; [|by eapply IH].
    destruct (update_market_price_deltas current_time p g)
      as (sc & dc & _ & _ & Hrun).
    unfold Random.run in Hrun. rewrite E1 in Hrun. cbn [fst] in Hrun.
    subst p'. cbn [apply_market_change MarketPrice.buy_price
                   MarketPrice.sell_price].
    split; by apply adjust_price_floor.
Qed.

(** C2, the failing input: a market-shift event that draws FUEL and
    "crash" multiplies the prices of the fuel market at an affected
    location by 0.7 and truncates; prices of 1 become 0, below the
    floor the periodic simulation keeps. *)
Theorem market_shift_breaks_price_floor :
  let out := Random.run (_create_market_shift_event [1] [Sample.fuel_market])
                        (Random.constant 1) in
  MarketPrice.buy_price Sample.fuel_market = 1 ∧
  MarketPrice.sell_price Sample.fuel_market = 1 ∧
  GameEvent.shift_direction out.1 = "crash"%string ∧
  MarketPrice.buy_price <$> out.2 = [0] ∧
  MarketPrice.sell_price <$> out.2 = [0].
Proof. vm_compute. repeat split; reflexivity. Qed.

End MarketFacts.

(** ** Travel *)

Section TravelFacts.

Import Vehicles GameEngine.

Variable fsqrt : Q → Q.

Lemma begin_journey_invariant (destination_id start eta cost : Z)
    (vehicle : Vehicle.t) :
  travel_invariant (begin_journey destination_id start eta cost vehicle).
Proof. unfold travel_invariant. simpl. by split; [split; eexists|]. Qed.

Lemma arrive_invariant (vehicle : Vehicle.t) :
  travel_invariant (arrive vehicle).
Proof.
  unfold travel_invariant. simpl.
  split; [discriminate | by intros [[? [=]] _]].
Qed.

Lemma update_vehicle_travels_lookup (current_time : Z)
    (vs : gmap Z Vehicle.t) (k : Z) :
  _update_vehicle_travels current_time vs !! k
  = (λ v, if has_arrived current_time v then arrive v else v) <$> vs !! k.
Proof. unfold _update_vehicle_travels. apply lookup_fmap. Qed.

Lemma update_vehicle_travels_invariant (current_time : Z)
    (vs : gmap Z Vehicle.t) :
  map_Forall (λ _, travel_invariant) vs →
  map_Forall (λ _, travel_invariant) (_update_vehicle_travels current_time vs).
Proof.
  intros Hall k v. rewrite update_vehicle_travels_lookup.
  destruct (vs !! k) as [v0|] eqn:E; [|discriminate].
  intros [= <-]. destruct (has_arrived current_time v0).
  - apply arrive_invariant.
  - by apply (Hall k).
Qed.

(** What a successful [start_travel] did. *)
Lemma start_travel_success (now now' : Z) (db db' : DB) (vehicle_id : Z)
    (request : TravelRequest) (user : Player.t) (response : TravelResponse) :
  start_travel fsqrt now now' db vehicle_id request user
    = (db', inr response) →
  ∃ vehicle destination eta,
    vehicles db !! vehicle_id = Some vehicle ∧
    response_estimated_arrival response = Some eta ∧
    db' = mkDB (<[vehicle_id :=
                    begin_journey (Location.id destination) now eta
                                  (fuel_cost response) vehicle]>
                  (vehicles db))
               (locations db).
Proof.
  unfold start_travel.
  destruct (vehicles db !! vehicle_id) as [vehicle|]; [|discriminate].
  destruct (negb _); [discriminate|].
  destruct (Vehicle.is_traveling vehicle); [discriminate|].
  destruct (locations db !! _) as [destination|]; [|discriminate].
  destruct (current_location db vehicle) as [origin|]; [|discriminate].
  destruct (_ =? 0); [discriminate|].
  destruct (_ <? _); [discriminate|].
  intros [= <- <-]. cbn [response_estimated_arrival fuel_cost].
  by eexists vehicle, destination, _.
Qed.

(** A rejected [start_travel] wrote nothing. *)
Lemma start_travel_failure (now now' : Z) (db db' : DB) (vehicle_id : Z)
    (request : TravelRequest) (user : Player.t) (e : Exception) :
  start_travel fsqrt now now' db vehicle_id request user = (db', inl e) →
  db' = db.
Proof.
  unfold start_travel.
  repeat match goal with
         | |- context [match ?x with _ => _ end] => destruct x
         end; by intros [= <- _].
Qed.

(** C3: a successful [start_travel] leaves its vehicle travelling
    with destination and estimated arrival both set, so the travel
    invariant holds of it, and of every vehicle if it held before;
    [_update_vehicle_travels] clears the three fields together on
    every vehicle it resolves and keeps the invariant on all; and once
    the arrival time has come, resolution takes the vehicle that
    started back to not travelling, no destination and no estimated
    arrival, the invariant holding again. *)
Theorem travel_invariant_round_trip (now now' : Z) (db db' : DB)
    (vehicle_id : Z) (request : TravelRequest) (user : Player.t)
    (response : TravelResponse) :
  start_travel fsqrt now now' db vehicle_id request user
    = (db', inr response) →
  (∃ vehicle,
     vehicles db' !! vehicle_id = Some vehicle ∧
     Vehicle.is_traveling vehicle = true ∧
     is_Some (Vehicle.destination_id vehicle) ∧
     is_Some (Vehicle.estimated_arrival vehicle) ∧
     Vehicle.estimated_arrival vehicle
       = response_estimated_arrival response ∧
     travel_invariant vehicle) ∧
  (map_Forall (λ _, travel_invariant) (vehicles db) →
   map_Forall (λ _, travel_invariant) (vehicles db')) ∧
  (∀ t vs k v,
     vs !! k = Some v → has_arrived t v = true →
     ∃ w, _update_vehicle_travels t vs !! k = Some w ∧
          Vehicle.is_traveling w = false ∧
          Vehicle.destination_id w = None ∧
          Vehicle.estimated_arrival w = None ∧
          travel_invariant w) ∧
  (∀ t vs, map_Forall (λ _, travel_invariant) vs →
           map_Forall (λ _, travel_invariant)
                      (_update_vehicle_travels t vs)) ∧
  (∀ t eta,
     response_estimated_arrival response = Some eta → eta ≤ t →
     ∃ w, _update_vehicle_travels t (vehicles db') !! vehicle_id = Some w ∧
          Vehicle.is_traveling w = false ∧
          Vehicle.destination_id w = None ∧
          Vehicle.estimated_arrival w = None ∧
          travel_invariant w).
Proof.
  intros Hstart.
  destruct (start_travel_success _ _ _ _ _ _ _ _ Hstart)
    as (vehicle & destination & eta & Hv & Heta & ->).
  cbn [vehicles].
  assert (Hres : ∀ t (vs : gmap Z Vehicle.t) k v,
             vs !! k = Some v → has_arrived t v = true →
             ∃ w, _update_vehicle_travels t vs !! k = Some w ∧
                  Vehicle.is_traveling w = false ∧
                  Vehicle.destination_id w = None ∧
                  Vehicle.estimated_arrival w = None ∧
                  travel_invariant w).
  { intros t vs k v Hk Ha. exists (arrive v).
    rewrite update_vehicle_travels_lookup, Hk.
    cbn [fmap option_fmap option_map].
    rewrite Ha. do 4 (split; [reflexivity|]). apply arrive_invariant. }
  split; [|split; [|split; [|split]]].
  - eexists. rewrite lookup_insert_eq. split; [reflexivity|].
    split; [reflexivity|]. split; [by eexists|]. split; [by eexists|].
    split; [by rewrite Heta|]. apply begin_journey_invariant.
  - intros Hall. apply map_Forall_insert_2; [|exact Hall].
    apply begin_journey_invariant.
  - exact Hres.
  - intros t vs. apply update_vehicle_travels_invariant.
  - intros t eta2 Heta2 Hle. eapply Hres; [apply lookup_insert_eq|].
    rewrite Heta in Heta2. injection Heta2 as ->.
    unfold has_arrived. cbn [begin_journey Vehicle.is_traveling
                             Vehicle.estimated_arrival].
    apply Z.leb_le in Hle. by rewrite Hle.
Qed.

(** C9: when the request reaches the fuel check (the vehicle exists,
    the user may access it, it is not travelling, destination and
    current location exist and the speed is not 0) and the vehicle's
    fuel is below the fuel cost of the journey, [start_travel] raises
    the 400 error "Insufficient fuel for journey" and the database is
    left as it was: the vehicle row, with its travel fields and fuel,
    is unchanged. *)
Theorem start_travel_insufficient_fuel (now now' : Z) (db : DB)
    (vehicle_id : Z) (request : TravelRequest) (user : Player.t)
    (vehicle : Vehicle.t) (origin destination : Location.t) :
  vehicles db !! vehicle_id = Some vehicle →
  can_access_vehicle db user vehicle_id = true →
  Vehicle.is_traveling vehicle = false →
  locations db !! request_destination_id request = Some destination →
  current_location db vehicle = Some origin →
  Vehicle.speed vehicle ≠ 0 →
  Vehicle.current_fuel vehicle
    < Py.py_int (distance_between fsqrt origin destination * (1 # 10))%Q →
  let out := start_travel fsqrt now now' db vehicle_id request user in
  out.2 = inl (HTTPException 400 "Insufficient fuel for journey") ∧
  out.1 = db ∧
  vehicles out.1 !! vehicle_id = Some vehicle.
Proof.
  intros Hv Hacc Htr Hdest Horig Hspeed Hfuel. unfold start_travel.
  rewrite Hv, Hacc, Htr, Hdest, Horig. cbn [negb].
  apply Z.eqb_neq in Hspeed. rewrite Hspeed.
  apply Z.ltb_lt in Hfuel. rewrite Hfuel. by cbn [fst snd].
Qed.

End TravelFacts.

Lemma travel_invariant_round_trip_witness :
  let out := Vehicles.start_travel Sample.isqrt 1000 1001 Sample.world 1
               (mkTravelRequest 1 2) Sample.trader in
  ∃ r eta, out.2 = inr r ∧ response_estimated_arrival r = Some eta ∧
    ∃ w, GameEngine._update_vehicle_travels eta (vehicles out.1) !! 1
           = Some w ∧
         Vehicle.is_traveling w = false ∧
         Vehicle.destination_id w = None ∧
         Vehicle.estimated_arrival w = None ∧
         Vehicles.travel_invariant w.
Proof.
  destruct (Vehicles.start_travel Sample.isqrt 1000 1001 Sample.world 1
              (mkTravelRequest 1 2) Sample.trader) as [db2 [e|r]] eqn:E;
    [vm_compute in E; discriminate E|].
  pose proof (travel_invariant_round_trip Sample.isqrt _ _ _ _ _ _ _ _ E)
    as (_ & _ & _ & _ & Hround).
  assert (Heta : response_estimated_arrival r = Some (1001 + Py.minutes 60)).
  { vm_compute in E. injection E as _ <-. reflexivity. }
  exists r, (1001 + Py.minutes 60). cbn [fst snd].
  split; [reflexivity|]. split; [exact Heta|].
  apply (Hround _ _ Heta). lia.
Defined.

Lemma start_travel_insufficient_fuel_witness :
  let out := Vehicles.start_travel Sample.isqrt 1000 1001 Sample.world 2
               (mkTravelRequest 2 2) Sample.trader in
  out.2 = inl (HTTPException 400 "Insufficient fuel for journey") ∧
  out.1 = Sample.world ∧
  vehicles out.1 !! 2 = Some Sample.van.
Proof.
  apply (start_travel_insufficient_fuel Sample.isqrt 1000 1001 Sample.world 2
           (mkTravelRequest 2 2) Sample.trader Sample.van Sample.harbour
           Sample.citadel);
    try (vm_compute; reflexivity); try (vm_compute; discriminate).
Defined.

(** ** The mission-deadline sweep *)

Section MissionFacts.

Import GameEngine.

Lemma check_mission_deadlines_app (current_time : Z)
    (before after : list Mission.t) (players : gmap Z Player.t) :
  _check_mission_deadlines current_time (before ++ after) players
  = let out1 := _check_mission_deadlines current_time before players in
    let out2 := _check_mission_deadlines current_time after out1.2 in
    (out1.1 ++ out2.1, out2.2).
Proof.
  revert players. induction before as [|m before IH]; intros players.
  - cbn. by destruct (_check_mission_deadlines current_time after players).
  - cbn [app _check_mission_deadlines].
    destruct (is_expired current_time m).
    + destruct (fail_mission m players) as [m1 ps1].
      rewrite IH.
      destruct (_check_mission_deadlines current_time before ps1)
        as [b1 ps2]. cbn.
      by destruct (_check_mission_deadlines current_time after ps2).
    + rewrite IH.
      destruct (_check_mission_deadlines current_time before players)
        as [b1 ps2]. cbn.
      by destruct (_check_mission_deadlines current_time after ps2).
Qed.

(** Every mission the query selects ends failed; the others are not
    touched. *)
Lemma check_mission_deadlines_status (current_time : Z)
    (missions : list Mission.t) (players : gmap Z Player.t) :
  (_check_mission_deadlines current_time missions players).1
  = (λ m, if is_expired current_time m
          then Mission.set_status FAILED m else m) <$> missions.
Proof.
  revert players. induction missions as [|m ms IH]; intros players;
    [reflexivity|].
  cbn [_check_mission_deadlines fmap list_fmap].
  destruct (is_expired current_time m).
  - unfold fail_mission.
    destruct (Mission.player_id m) as [pid|];
      [destruct (players !! pid)|];
      match goal with
      | |- context [_check_mission_deadlines _ _ ?ps] =>
          specialize (IH ps);
          destruct (_check_mission_deadlines current_time ms ps)
      end; cbn in *; by rewrite IH.
  - specialize (IH players).
    destruct (_check_mission_deadlines current_time ms players).
    cbn in *. by rewrite IH.
Qed.

(** C4: in a sweep over any list of missions, a mission whose
    deadline has passed and whose status is accepted or in progress
    comes out failed; if it has an owner, the owner's credits and
    reputation right after the mission is handled are the values right
    before it, less the penalty and less 2, each floored at 0.  The
    penalty is [penalty_credits] when that is set to a non-zero value
    and a quarter of the reward (integer division) otherwise; with a
    reward of 1000 and no penalty set it is 250. *)
Theorem mission_deadline_penalty (current_time : Z)
    (before after : list Mission.t) (mission : Mission.t)
    (players : gmap Z Player.t) (pid : Z) (player : Player.t) :
  is_expired current_time mission = true →
  Mission.player_id mission = Some pid →
  (_check_mission_deadlines current_time before players).2 !! pid
    = Some player →
  let out :=
    _check_mission_deadlines current_time (before ++ mission :: after)
                             players in
  let handled :=
    _check_mission_deadlines current_time (before ++ [mission]) players in
  (Mission.status <$> out.1 !! length before) = Some FAILED ∧
  (∃ player',
     handled.2 !! pid = Some player' ∧
     Player.credits player'
       = Z.max 0 (Player.credits player - penalty_of mission) ∧
     Player.reputation player'
       = Z.max 0 (Player.reputation player - 2)) ∧
  (∀ p, Mission.penalty_credits mission = Some p → p ≠ 0 →
        penalty_of mission = p) ∧
  (Mission.penalty_credits mission = None
   ∨ Mission.penalty_credits mission = Some 0 →
   penalty_of mission = Mission.reward_credits mission / 4) ∧
  (Mission.reward_credits mission = 1000 →
   Mission.penalty_credits mission = None
   ∨ Mission.penalty_credits mission = Some 0 →
   penalty_of mission = 250).
Proof.
  intros Hexp Hpid Hplayer out handled.
  assert (Hquarter : Mission.penalty_credits mission = None
                     ∨ Mission.penalty_credits mission = Some 0 →
                     penalty_of mission = Mission.reward_credits mission / 4).
  { unfold penalty_of. by intros [-> | ->]. }
  split; [|split; [|split; [|split]]].
  - subst out. rewrite check_mission_deadlines_status, list_lookup_fmap.
    rewrite lookup_app_r, Nat.sub_diag by lia. cbn.
    by rewrite Hexp.
  - subst handled. rewrite check_mission_deadlines_app.
    destruct (_check_mission_deadlines current_time before players)
      as [b1 ps1]. cbn [fst snd] in *.
    cbn [_check_mission_deadlines]. rewrite Hexp.
    unfold fail_mission. rewrite Hpid, Hplayer. cbn [fst snd].
    eexists. rewrite lookup_insert_eq. split; [reflexivity|].
    by split.
  - intros p Hp Hne. unfold penalty_of. rewrite Hp. cbn.
    apply Z.eqb_neq in Hne. by rewrite Hne.
  - exact Hquarter.
  - intros Hr Hnone. rewrite (Hquarter Hnone), Hr. reflexivity.
Qed.

Lemma mission_deadline_penalty_witness :
  let out :=
    _check_mission_deadlines 5000 [Sample.late_mission]
                             {[ 10 := Sample.trader ]} in
  Mission.status <$> out.1 = [FAILED] ∧
  Player.credits <$> out.2 !! 10 = Some 750 ∧
  Player.reputation <$> out.2 !! 10 = Some 3.
Proof.
  assert (Hexp : is_expired 5000 Sample.late_mission = true)
    by reflexivity.
  assert (Hp : (_check_mission_deadlines 5000 [] {[ 10 := Sample.trader ]}).2
               !! 10 = Some Sample.trader) by reflexivity.
  pose proof (mission_deadline_penalty 5000 [] [] Sample.late_mission
                {[ 10 := Sample.trader ]} 10 Sample.trader
                Hexp eq_refl Hp)
    as (_ & (p2 & Hl & Hc & Hr) & _ & _ & H250).
  cbn [app] in Hl. cbv zeta.
  split; [reflexivity|].
  rewrite Hl. cbn [fmap option_fmap option_map].
  rewrite Hc, Hr, (H250 eq_refl (or_introl eq_refl)).
  split; reflexivity.
Defined.

End MissionFacts.

(** ** The connection registry *)

Section RegistryFacts.

Import WebSocketManager.

Implicit Types (groups : gmap Z (gset Z)) (self : t).

Lemma discard_from_Some key p groups k (g : gset Z) :
  discard_from key p groups !! k = Some g ↔
  (k = key ∧ g ≠ ∅ ∧ ∃ g0, groups !! key = Some g0 ∧ g = g0 ∖ {[p]})
  ∨ (k ≠ key ∧ groups !! k = Some g).
Proof.
  unfold discard_from. destruct (groups !! key) as [g0|] eqn:E; cbv zeta.
  - case_decide as Hempty.
    + rewrite lookup_delete_Some. split.
      * intros [Hne Hk]. right. by split.
      * intros [(-> & Hg & g1 & [= <-] & ->)|[Hne Hk]]; [done|].
        by split.
    + rewrite lookup_insert_Some. split.
      * intros [[<- <-]|[Hne Hk]]; [left|right]; eauto.
      * intros [(-> & Hg & g1 & [= <-] & ->)|[Hne Hk]]; [left|right];
          eauto.
  - split.
    + intros Hk. right. split; [|done]. intros ->. congruence.
    + intros [(-> & _ & g1 & [=] & _)|[_ Hk]]. done.
Qed.

Lemma add_to_Some key p groups k (g : gset Z) :
  add_to key p groups !! k = Some g ↔
  (k = key ∧ g = default ∅ (groups !! key) ∪ {[p]})
  ∨ (k ≠ key ∧ groups !! k = Some g).
Proof.
  unfold add_to. rewrite lookup_insert_Some. split.
  - intros [[<- <-]|[Hne Hk]]; [left|right]; eauto.
  - intros [[-> ->]|[Hne Hk]]; [left|right]; eauto.
Qed.

Lemma discard_from_nonempty key p groups :
  groups_nonempty groups → groups_nonempty (discard_from key p groups).
Proof.
  intros Hne k g [(_ & Hg & _)|[_ Hk]]%discard_from_Some; [done|].
  by eapply Hne.
Qed.

Lemma add_to_nonempty key p groups :
  groups_nonempty groups → groups_nonempty (add_to key p groups).
Proof.
  intros Hne k g [[_ ->]|[_ Hk]]%add_to_Some; [set_solver|].
  by eapply Hne.
Qed.

Lemma without_player_spec p self l (g : gset Z) q :
  registry_ok self →
  without_player p self !! l = Some g → q ∈ g →
  g ≠ ∅ ∧ q ≠ p ∧ player_locations self !! q = Some l.
Proof.
  intros (Hloc & _ & Hcons). unfold without_player.
  destruct (player_locations self !! p) as [l0|] eqn:Hp.
  - intros [(-> & Hg & g0 & Hg0 & ->)|[Hne Hk]]%discard_from_Some Hq.
    + apply elem_of_difference in Hq as [Hq Hqp].
      split; [done|]. split; [set_solver|]. by eapply Hcons.
    + split; [by eapply Hloc|].
      pose proof (Hcons _ _ _ Hk Hq) as Hql.
      split; [|done]. intros ->. congruence.
  - intros Hk Hq. split; [by eapply Hloc|].
    pose proof (Hcons _ _ _ Hk Hq) as Hql.
    split; [|done]. intros ->. congruence.
Qed.

Lemma disconnect_location_groups p self :
  location_groups (disconnect p self) = without_player p self.
Proof.
  unfold disconnect, without_player.
  by destruct (player_locations self !! p).
Qed.

Lemma disconnect_player_locations p self :
  player_locations (disconnect p self) = delete p (player_locations self).
Proof.
  unfold disconnect.
  destruct (player_locations self !! p) eqn:E; cbn; [done|].
  symmetry. by apply delete_id.
Qed.

Lemma disconnect_alliance_groups p self a (g : gset Z) :
  alliance_groups (disconnect p self) !! a = Some g ↔
  g ≠ ∅ ∧ ∃ g0, alliance_groups self !! a = Some g0 ∧ g = g0 ∖ {[p]}.
Proof.
  unfold disconnect.
  destruct (player_locations self !! p); cbn [alliance_groups];
    rewrite map_lookup_filter_Some, lookup_fmap_Some; cbn [snd];
    split.
  all: try (intros [(g0 & <- & Hg0) Hne]; split; [done|]; by exists g0).
  all: intros [Hne (g0 & Hg0 & ->)]; split; [by exists g0|done].
Qed.

Lemma disconnect_ok p self : registry_ok self → registry_ok (disconnect p self).
Proof.
  intros Hok. split; [|split].
  - intros l g. rewrite disconnect_location_groups. intros Hl.
    destruct (decide (g = ∅)) as [->|Hne]; [|done].
    exfalso. destruct Hok as (Hloc & _ & _). revert Hl.
    unfold without_player. destruct (player_locations self !! p).
    + intros [(_ & Hg & _)|[_ Hk]]%discard_from_Some; [done|].
      by eapply Hloc.
    + intros Hk. by eapply Hloc.
  - intros a g [Hne _]%disconnect_alliance_groups. done.
  - intros l g q. rewrite disconnect_location_groups,
      disconnect_player_locations.
    intros Hl Hq.
    destruct (without_player_spec _ _ _ _ _ Hok Hl Hq) as (_ & Hqp & Hql).
    by rewrite lookup_delete_ne.
Qed.

Lemma send_personal_message_ok p send_ok self :
  registry_ok self → registry_ok (send_personal_message p send_ok self).
Proof.
  intros Hok. unfold send_personal_message.
  destruct (active_connections self !! p); [|done].
  destruct send_ok; [done|]. by apply disconnect_ok.
Qed.

Lemma connect_ok websocket p send_ok self :
  registry_ok self → registry_ok (connect websocket p send_ok self).
Proof.
  intros Hok. unfold connect. by apply send_personal_message_ok.
Qed.

Lemma update_player_location_ok p l self :
  registry_ok self → registry_ok (update_player_location p l self).
Proof.
  intros Hok. unfold update_player_location.
  fold (without_player p self).
  split; [|split]; cbn [location_groups alliance_groups player_locations].
  - intros k g [[_ ->]|[_ Hk]]%add_to_Some; [set_solver|].
    destruct (decide (g = ∅)) as [->|]; [|done]. exfalso.
    destruct Hok as (Hloc & _ & _). revert Hk. unfold without_player.
    destruct (player_locations self !! p).
    + intros [(_ & Hg & _)|[_ Hk]]%discard_from_Some; [done|].
      by eapply Hloc.
    + intros Hk. by eapply Hloc.
  - by destruct Hok as (_ & Hall & _).
  - intros k g q. cbn [location_groups player_locations].
    intros [[-> ->]|[Hne Hk]]%add_to_Some Hq.
    + apply elem_of_union in Hq as [Hq|Hq].
      * destruct (without_player p self !! l) as [g1|] eqn:E;
          cbn in Hq; [|set_solver].
        destruct (without_player_spec _ _ _ _ _ Hok E Hq) as (_ & ? & ?).
        by rewrite lookup_insert_ne.
      * apply elem_of_singleton in Hq as ->. apply lookup_insert_eq.
    + destruct (without_player_spec _ _ _ _ _ Hok Hk Hq) as (_ & ? & ?).
      by rewrite lookup_insert_ne.
Qed.

Lemma update_player_alliance_ok p alliance_id old_alliance_id self :
  registry_ok self →
  registry_ok (update_player_alliance p alliance_id old_alliance_id self).
Proof.
  intros (Hloc & Hall & Hcons). unfold update_player_alliance.
  split; [done|]. split; [|done]. cbn [alliance_groups].
  assert (Hold : groups_nonempty
            match old_alliance_id with
            | Some old =>
                if Py.truthy old_alliance_id
                then discard_from old p (alliance_groups self)
                else alliance_groups self
            | None => alliance_groups self
            end).
  { destruct old_alliance_id; [|done].
    destruct (Py.truthy _); [|done]. by apply discard_from_nonempty. }
  destruct alliance_id as [new|]; [|exact Hold].
  destruct (Py.truthy (Some new)); [|exact Hold].
  by apply add_to_nonempty.
Qed.

Lemma reachable_ok self : reachable self → registry_ok self.
Proof.
  induction 1.
  - split; [|split]; intros ? ?; [| |intros ?];
      unfold init; cbn [location_groups alliance_groups];
      by rewrite lookup_empty.
  - by apply connect_ok.
  - by apply disconnect_ok.
  - by apply send_personal_message_ok.
  - by apply update_player_location_ok.
  - by apply update_player_alliance_ok.
Qed.

(** C7: in every state of the registry (every state its operations
    can build), after [disconnect(player_id)] the player has no
    connection and no recorded location, belongs to no location group
    and to no alliance group, and no location or alliance group is
    empty. *)
Theorem disconnect_removes_player (player_id : Z) self :
  reachable self →
  let self' := disconnect player_id self in
  active_connections self' !! player_id = None ∧
  player_locations self' !! player_id = None ∧
  (∀ l (g : gset Z),
     location_groups self' !! l = Some g → (player_id ∉ g) ∧ g ≠ ∅) ∧
  (∀ a (g : gset Z),
     alliance_groups self' !! a = Some g → (player_id ∉ g) ∧ g ≠ ∅).
Proof.
  intros Hok%reachable_ok. cbv zeta.
  split; [|split; [|split]].
  - unfold disconnect. destruct (player_locations self !! player_id);
      apply lookup_delete_eq.
  - rewrite disconnect_player_locations. apply lookup_delete_eq.
  - intros l g Hl. split.
    + intros Hin. rewrite disconnect_location_groups in Hl.
      by destruct (without_player_spec _ _ _ _ _ Hok Hl Hin) as (_ & ? & _).
    + destruct (disconnect_ok player_id self Hok) as (Hne & _ & _).
      by eapply Hne.
  - intros a g (Hne & g0 & _ & ->)%disconnect_alliance_groups.
    split; [|done]. intros [_ Hn]%elem_of_difference.
    by apply Hn, elem_of_singleton.
Qed.

Lemma disconnect_removes_player_witness :
  let self' := disconnect 7 Sample.lobby in
  active_connections self' !! 7 = None ∧
  player_locations self' !! 7 = None ∧
  (∀ l (g : gset Z), location_groups self' !! l = Some g → (7 ∉ g) ∧ g ≠ ∅) ∧
  (∀ a (g : gset Z), alliance_groups self' !! a = Some g → (7 ∉ g) ∧ g ≠ ∅).
Proof.
  apply (disconnect_removes_player 7 Sample.lobby).
  unfold Sample.lobby. repeat constructor.
Defined.

End RegistryFacts.

(** * Further properties *)

(** ** Rolls *)

Section RollFacts.

Lemma random_unit (w : Z) :
  (0 <= (w mod Random.two53) # Z.to_pos Random.two53)%Q
  ∧ ((w mod Random.two53) # Z.to_pos Random.two53 < 1)%Q.
Proof.
  pose proof (Z.mod_pos_bound w Random.two53 ltac:(reflexivity)) as [H0 H1].
  unfold Qle, Qlt. cbn [Qnum Qden].
  change (Z.pos (Z.to_pos Random.two53)) with Random.two53.
  split; lia.
Qed.

Lemma uniform_value (a b : Q) (g : Random.source) :
  (Random.uniform a b g).1
  = (a + (b - a)
         * ((Random.draws g (Random.cursor g) mod Random.two53)
            # Z.to_pos Random.two53))%Q.
Proof. reflexivity. Qed.

Lemma uniform_range (a b : Q) (g : Random.source) :
  (a <= b)%Q →
  (a <= (Random.uniform a b g).1)%Q ∧ ((Random.uniform a b g).1 <= b)%Q.
Proof.
  intros Hab. rewrite uniform_value.
  destruct (random_unit (Random.draws g (Random.cursor g))) as [H0 H1].
  split; nra.
Qed.

Lemma py_int_range (x : Q) (hi : Z) :
  (0 <= x)%Q → (x <= inject_Z hi)%Q → 0 ≤ Py.py_int x ≤ hi.
Proof.
  destruct x as [n d]. unfold Qle, Py.py_int. cbn [Qnum Qden inject_Z].
  intros H0 H1. rewrite Z.quot_div_nonneg by lia. split.
  - apply Z.div_pos; lia.
  - apply Z.div_le_upper_bound; lia.
Qed.

Lemma inject_Z_nonneg (c : Z) : 0 ≤ c → (0 <= inject_Z c)%Q.
Proof. intros Hc. unfold Qle. cbn. lia. Qed.

Lemma damage_multiplier_range (action : Combat.CombatAction) :
  ((4 # 5) <= Combat.damage_multiplier action)%Q
  ∧ (Combat.damage_multiplier action <= (3 # 2))%Q.
Proof.
  unfold Combat.damage_multiplier.
  destruct (String.eqb _ "attack"); [split; discriminate|].
  destruct (String.eqb _ "special_ability"); split; discriminate.
Qed.

End RollFacts.

(** ** Combat, beyond the winner *)

Section CombatExtras.

Import Combat.

Ltac run_rolls :=
  cbv [Random.run mbind random_bind Random.bind mret random_ret Random.ret].

(** The exchange of [_execute_combat], rolls named. *)
Lemma execute_combat_unfold (attacker target : Vehicle.t)
    (action : CombatAction) (g : Random.source) :
  ∃ u1 u2 : Q,
    ((4 # 5) <= u1)%Q ∧ (u1 <= (6 # 5))%Q ∧
    ((1 # 2) <= u2)%Q ∧ (u2 <= (4 # 5))%Q ∧
    let dealt :=
      Z.max 1 (Py.py_int (inject_Z (Vehicle.attack_power attacker)
                          * damage_multiplier action * u1)%Q
               - Vehicle.defense target) in
    let received :=
      Py.py_int (inject_Z (Z.max 1 (Vehicle.attack_power target
                                    - Vehicle.defense attacker)) * u2)%Q in
    let out := Random.run (_execute_combat attacker target action) g in
    damage_dealt out.2 = dealt ∧ damage_received out.2 = received ∧
    Vehicle.durability out.1.2 = Z.max 0 (Vehicle.durability target - dealt) ∧
    Vehicle.durability out.1.1
      = Z.max 0 (Vehicle.durability attacker - received).
Proof.
  pose (g1 := (Random.uniform (4 # 5) (6 # 5) g).2).
  exists (Random.uniform (4 # 5) (6 # 5) g).1,
         (Random.uniform (1 # 2) (4 # 5) g1).1.
  destruct (uniform_range (4 # 5) (6 # 5) g ltac:(discriminate)) as [? ?].
  destruct (uniform_range (1 # 2) (4 # 5) g1 ltac:(discriminate)) as [? ?].
  do 4 (split; [assumption|]).
  unfold _execute_combat. run_rolls.
  destruct (Random.uniform (4 # 5) (6 # 5) g) as [u1 g1'] eqn:E1.
  subst g1. cbn [fst snd] in *.
  destruct (Random.uniform (1 # 2) (4 # 5) g1') as [u2 g2] eqn:E2.
  cbn [fst snd] in *.
  cbn [Vehicle.durability Vehicle.set_durability Vehicle.attack_power
       Vehicle.defense Vehicle.owner_id].
  destruct (opt_eqb _ _);
    cbn [fst snd damage_dealt damage_received Vehicle.durability
         Vehicle.set_durability Vehicle.set_current_cargo];
    repeat split; reflexivity.
Qed.

(** X1: damage accounting in [_execute_combat].  The damage dealt is at
    least 1; the damage received is between 0 and
    [max(1, target attack - attacker defense)]; each side's durability
    after the exchange is its durability before less the damage it took,
    floored at 0.  So no exchange raises a non-negative durability, and a
    target above 0 always ends strictly lower. *)
Theorem execute_combat_damage_accounting (attacker target : Vehicle.t)
    (action : CombatAction) (g : Random.source) :
  let out := Random.run (_execute_combat attacker target action) g in
  1 ≤ damage_dealt out.2 ∧
  0 ≤ damage_received out.2
    ≤ Z.max 1 (Vehicle.attack_power target - Vehicle.defense attacker) ∧
  Vehicle.durability out.1.2
    = Z.max 0 (Vehicle.durability target - damage_dealt out.2) ∧
  Vehicle.durability out.1.1
    = Z.max 0 (Vehicle.durability attacker - damage_received out.2) ∧
  Vehicle.durability out.1.2 ≤ Z.max 0 (Vehicle.durability target) ∧
  Vehicle.durability out.1.1 ≤ Z.max 0 (Vehicle.durability attacker) ∧
  (Vehicle.durability out.1.2 < Vehicle.durability target
   ∨ Vehicle.durability target ≤ 0).
Proof.
  destruct (execute_combat_unfold attacker target action g)
    as (u1 & u2 & H1 & H2 & H3 & H4 & Hd & Hr & Ht & Ha).
  cbv zeta in *. rewrite Ht, Ha, Hd, Hr.
  set (c := Z.max 1 (Vehicle.attack_power target - Vehicle.defense attacker)).
  assert (Hc : 0 ≤ Py.py_int (inject_Z c * u2)%Q ≤ c).
  { pose proof (inject_Z_nonneg c ltac:(lia)).
    apply py_int_range; nra. }
  lia.
Qed.

Lemma taken_quarter (q : Z) :
  match taken 4 q with
  | Some s => 0 < s ∧ 4 * s ≤ q ∧ after_taken 4 q = q - s
  | None => after_taken 4 q = q
  end.
Proof.
  unfold after_taken, taken.
  destruct (Z.ltb_spec 0 (Z.min q (q / 4))) as [Hpos|Hle]; [|reflexivity].
  split; [exact Hpos|]. split; [|reflexivity].
  pose proof (Z.mul_div_le q 4 ltac:(lia)). lia.
Qed.

Lemma quantity_Some (m : gmap string Z) (k : string) :
  quantity (Some m) k = default 0 (m !! k).
Proof. reflexivity. Qed.

(** The cargo a combat commit stores: the loaded cargo when that is a
    non-empty dictionary, whatever was done to the object; the object's
    cargo otherwise. *)
Lemma stored_vehicle_cargo (loaded in_memory : Vehicle.t) :
  Vehicle.current_cargo (stored_vehicle loaded in_memory)
  = if is_loaded_dict (Vehicle.current_cargo loaded)
    then Vehicle.current_cargo loaded
    else Vehicle.current_cargo in_memory.
Proof.
  unfold stored_vehicle, commit_cargo, Orm.flush.
  cbn [Vehicle.current_cargo Vehicle.set_current_cargo].
  destruct (is_loaded_dict (Vehicle.current_cargo loaded));
    case_decide; congruence.
Qed.

(** X2: loot in [_execute_combat] is a transfer between the two vehicle
    objects, and what of it the commit stores.  For every cargo kind,
    what the attacker object holds after the exchange is what it held
    before plus exactly what the target object lost; the amount moved is
    never negative, never more than a quarter of the target's line, and
    is the amount reported as gained and as lost.  Unless the attacker's
    owner is declared the winner, neither cargo is touched.  Of the rows
    stored, a vehicle loaded with a non-empty cargo keeps exactly that
    cargo, looted or looting; only a vehicle loaded with no cargo, or an
    empty one, is stored with the cargo of its object. *)
Theorem execute_combat_loot_is_transfer (attacker target : Vehicle.t)
    (action : CombatAction) (g : Random.source) (kind : string) :
  let out := Random.run (_execute_combat attacker target action) g in
  let before := quantity (Vehicle.current_cargo target) kind in
  let moved := before - quantity (Vehicle.current_cargo out.1.2) kind in
  quantity (Vehicle.current_cargo out.1.1) kind
    = quantity (Vehicle.current_cargo attacker) kind + moved ∧
  0 ≤ moved ∧ 4 * moved ≤ Z.max 0 before ∧
  default 0 (cargo_gained out.2 !! kind) = moved ∧
  cargo_lost out.2 = cargo_gained out.2 ∧
  (winner_id out.2 = Some (Vehicle.owner_id attacker)
   ∨ (Vehicle.current_cargo out.1.1 = Vehicle.current_cargo attacker
      ∧ Vehicle.current_cargo out.1.2 = Vehicle.current_cargo target)) ∧
  Vehicle.current_cargo (stored_vehicle attacker out.1.1)
    = (if is_loaded_dict (Vehicle.current_cargo attacker)
       then Vehicle.current_cargo attacker
       else Vehicle.current_cargo out.1.1) ∧
  Vehicle.current_cargo (stored_vehicle target out.1.2)
    = (if is_loaded_dict (Vehicle.current_cargo target)
       then Vehicle.current_cargo target
       else Vehicle.current_cargo out.1.2).
Proof.
  cbv zeta. rewrite !stored_vehicle_cargo.
  unfold _execute_combat. run_rolls.
  destruct (Random.uniform (4 # 5) (6 # 5) g) as [u1 g1].
  destruct (Random.uniform (1 # 2) (4 # 5) g1) as [u2 g2].
  cbn [fst snd Vehicle.durability Vehicle.set_durability Vehicle.owner_id
       Vehicle.current_cargo Vehicle.attack_power Vehicle.defense].
  destruct (opt_eqb _ _) eqn:Hw;
    cbn [fst snd Vehicle.current_cargo Vehicle.set_current_cargo
         Vehicle.set_durability cargo_gained cargo_lost winner_id].
  - apply opt_eqb_owner in Hw.
    rewrite !quantity_Some. unfold quantity, add_cargo.
    rewrite lookup_union_with, lookup_fmap, lookup_omap.
    set (mt := cargo_or_empty (Vehicle.current_cargo target)).
    set (ma := cargo_or_empty (Vehicle.current_cargo attacker)).
    destruct (mt !! kind) as [q|] eqn:Et; cbn [mbind option_bind fmap
      option_fmap option_map default].
    + pose proof (taken_quarter q) as Hq.
      destruct (taken 4 q) as [s|] eqn:Es.
      * destruct Hq as (Hs & H4 & ->).
        destruct (ma !! kind) as [qa|]; cbn;
          (split; [lia|]); (split; [lia|]); (split; [lia|]);
          (split; [lia|]); (split; [reflexivity|]);
          (split; [by left|]); split; reflexivity.
      * rewrite Hq.
        destruct (ma !! kind) as [qa|]; cbn;
          (split; [lia|]); (split; [lia|]); (split; [lia|]);
          (split; [lia|]); (split; [reflexivity|]);
          (split; [by left|]); split; reflexivity.
    + destruct (ma !! kind) as [qa|]; cbn;
        (split; [lia|]); (split; [lia|]); (split; [lia|]);
        (split; [lia|]); (split; [reflexivity|]);
        (split; [by left|]); split; reflexivity.
  - rewrite lookup_empty. cbn [default].
    split; [lia|]. split; [lia|]. split; [lia|]. split; [lia|].
    split; [reflexivity|]. split; [by right|]. split; reflexivity.
Qed.

Lemma execute_combat_loot_is_transfer_witness :
  let out := Random.run (_execute_combat Sample.gunship Sample.freighter
                           (mkAction "attack")) (Random.constant 0) in
  winner_id out.2 = Some (Vehicle.owner_id Sample.gunship) ∧
  quantity (Vehicle.current_cargo out.1.1) "food" = 10 ∧
  quantity (Vehicle.current_cargo out.1.2) "food" = 30 ∧
  Vehicle.current_cargo (stored_vehicle Sample.gunship out.1.1)
    = Vehicle.current_cargo Sample.gunship ∧
  Vehicle.current_cargo (stored_vehicle Sample.freighter out.1.2)
    = Vehicle.current_cargo Sample.freighter.
Proof.
  destruct (execute_combat_loot_is_transfer Sample.gunship Sample.freighter
              (mkAction "attack") (Random.constant 0) "food")
    as (_ & _ & _ & _ & _ & _ & Hsa & Hst).
  do 3 (split; [vm_compute; reflexivity|]).
  split; [exact Hsa | exact Hst].
Defined.

End CombatExtras.

(** ** Pirate encounters *)

Section PirateExtras.

Import Combat CombatRoutes.

Ltac run_rolls :=
  cbv [Random.run mbind random_bind Random.bind mret random_ret Random.ret].

Lemma randint_range (a b : Z) (g : Random.source) :
  a ≤ b → a ≤ (Random.randint a b g).1 ≤ b.
Proof.
  intros Hab. cbv [Random.randint Random.bind Random.next Random.ret].
  cbn [fst].
  pose proof (Z.mod_pos_bound (Random.draws g (Random.cursor g)) (b - a + 1)).
  lia.
Qed.

(** The two branches of [_execute_pirate_combat], rolls named. *)
Lemma execute_pirate_combat_cases (vehicle : Vehicle.t)
    (pirates : PirateStats) (action : CombatAction) (g : Random.source) :
  ∃ u1 u2 : Q,
    ((4 # 5) <= u1)%Q ∧ (u1 <= (6 # 5))%Q ∧
    ((7 # 10) <= u2)%Q ∧ (u2 <= 1)%Q ∧
    let dealt :=
      Z.max 1 (Py.py_int (inject_Z (Vehicle.attack_power vehicle)
                          * damage_multiplier action * u1)%Q
               - pirate_defense pirates) in
    let received :=
      Py.py_int (inject_Z (Z.max 1 (pirate_attack_power pirates
                                    - Vehicle.defense vehicle)) * u2)%Q in
    let out := Random.run (_execute_pirate_combat vehicle pirates action) g in
    damage_dealt out.2 = dealt ∧ damage_received out.2 = received ∧
    pirate_durability out.1.2 = pirate_durability pirates - dealt ∧
    out.1.1 = Vehicle.set_current_cargo (Vehicle.current_cargo out.1.1)
                (Vehicle.set_durability
                   (Z.max 0 (Vehicle.durability vehicle - received)) vehicle) ∧
    ((pirate_durability pirates - dealt ≤ 0 ∧
      winner_id out.2 = Some (Vehicle.owner_id vehicle) ∧
      Vehicle.current_cargo out.1.1 = Vehicle.current_cargo vehicle ∧
      50 ≤ credits_gained out.2 ≤ 200 ∧ credits_lost out.2 = 0 ∧
      cargo_lost out.2 = ∅ ∧
      (cargo_gained out.2 = ∅
       ∨ cargo_gained out.2 = {[ "artifacts"%string := 1 ]}) ∧
      experience_gained out.2 = 75)
     ∨ (0 < pirate_durability pirates - dealt ∧
        winner_id out.2 = None ∧
        100 ≤ credits_lost out.2 ≤ 500 ∧ credits_gained out.2 = 0 ∧
        cargo_gained out.2 = ∅ ∧ experience_gained out.2 = 25)).
Proof.
  pose (g1 := (Random.uniform (4 # 5) (6 # 5) g).2).
  exists (Random.uniform (4 # 5) (6 # 5) g).1,
         (Random.uniform (7 # 10) 1 g1).1.
  destruct (uniform_range (4 # 5) (6 # 5) g ltac:(discriminate)) as [? ?].
  destruct (uniform_range (7 # 10) 1 g1 ltac:(discriminate)) as [? ?].
  do 4 (split; [assumption|]).
  unfold _execute_pirate_combat. run_rolls.
  destruct (Random.uniform (4 # 5) (6 # 5) g) as [u1 g1'] eqn:E1.
  subst g1. cbn [fst snd] in *.
  destruct (Random.uniform (7 # 10) 1 g1') as [u2 g2] eqn:E2.
  cbn [fst snd] in *.
  cbn [pirate_durability pirate_attack_power pirate_defense
       Vehicle.durability Vehicle.set_durability Vehicle.owner_id
       Vehicle.attack_power Vehicle.defense].
  set (dealt := Z.max 1 _). set (received := Py.py_int _).
  destruct (Z.leb_spec (pirate_durability pirates - dealt) 0) as [Hle|Hgt].
  - cbn [opt_eqb]. rewrite Z.eqb_refl.
    pose proof (randint_range 50 200 g2 ltac:(lia)) as Hr.
    destruct (Random.randint 50 200 g2) as [c g3]. cbn [fst] in Hr.
    destruct (Random.random g3) as [chance g4].
    cbn [fst snd damage_dealt damage_received pirate_durability winner_id
         credits_gained credits_lost cargo_lost cargo_gained
         experience_gained Vehicle.current_cargo Vehicle.set_durability
         Vehicle.set_current_cargo].
    do 4 (split; [reflexivity|]). left.
    do 3 (split; [done|]). split; [exact Hr|]. do 2 (split; [done|]).
    split; [|done]. destruct (Py.lt chance (3 # 10)); [by right|by left].
  - assert (Hnone : (if Z.max 0 (Vehicle.durability vehicle - received) =? 0
                     then @None Z else None) = None)
      by (by destruct (_ =? 0)).
    rewrite Hnone. cbn [opt_eqb].
    match goal with
    | |- context [Random.randint 100 500 ?gg] =>
        pose proof (randint_range 100 500 gg ltac:(lia)) as Hr;
        destruct (Random.randint 100 500 gg) as [c g3]
    end.
    cbn [fst] in Hr.
    cbn [fst snd damage_dealt damage_received pirate_durability winner_id
         credits_gained credits_lost cargo_lost cargo_gained
         experience_gained Vehicle.current_cargo Vehicle.set_durability
         Vehicle.set_current_cargo].
    do 4 (split; [reflexivity|]). right.
    do 2 (split; [done|]). split; [exact Hr|]. done.
Qed.

Lemma py_int_nine_fifths (x : Q) (a : Z) :
  (0 <= x)%Q → (x <= inject_Z a * (9 # 5))%Q → 5 * Py.py_int x ≤ 9 * a.
Proof.
  destruct x as [n d]. unfold Qle, Py.py_int. cbn [Qnum Qden inject_Z Qmult].
  intros H0 H1. rewrite Z.quot_div_nonneg by lia.
  pose proof (Z.mul_div_le n (Z.pos d) ltac:(lia)).
  nia.
Qed.

Lemma attack_product_range (a m u : Q) :
  (0 <= a)%Q → ((4 # 5) <= m)%Q → (m <= (3 # 2))%Q →
  ((4 # 5) <= u)%Q → (u <= (6 # 5))%Q →
  (0 <= a * m * u)%Q ∧ (a * m * u <= a * (9 # 5))%Q.
Proof.
  intros Ha Hm1 Hm2 Hu1 Hu2.
  assert (0 <= a * m)%Q by nra.
  assert (a * m <= a * (3 # 2))%Q by nra.
  assert (a * m * u <= a * m * (6 # 5))%Q by nra.
  split; nra.
Qed.

(** X3: the win branch of [_execute_pirate_combat].  The vehicle's
    owner is declared the winner only when the pirates' durability is
    brought to 0 or below in this one exchange; then the credits gained
    are a roll between 50 and 200, nothing is lost, the cargo reported as
    gained is empty or one artifact, and the vehicle's own cargo is left
    exactly as it was: the artifact is reported, not loaded. *)
Theorem pirate_combat_win_branch (vehicle : Vehicle.t)
    (pirates : PirateStats) (action : CombatAction) (g : Random.source) :
  let out := Random.run (_execute_pirate_combat vehicle pirates action) g in
  winner_id out.2 = Some (Vehicle.owner_id vehicle) →
  pirate_durability out.1.2 ≤ 0 ∧
  pirate_durability pirates ≤ damage_dealt out.2 ∧
  Vehicle.current_cargo out.1.1 = Vehicle.current_cargo vehicle ∧
  50 ≤ credits_gained out.2 ≤ 200 ∧
  credits_lost out.2 = 0 ∧ cargo_lost out.2 = ∅ ∧
  (cargo_gained out.2 = ∅
   ∨ cargo_gained out.2 = {[ "artifacts"%string := 1 ]}).
Proof.
  destruct (execute_pirate_combat_cases vehicle pirates action g)
    as (u1 & u2 & _ & _ & _ & _ & Hd & _ & Hp & _ & Hcase).
  cbv zeta in *. intros Hw.
  destruct Hcase as [(Hle & _ & Hc & Hg & Hl & Hcl & Hcg & _)
                    |(_ & Hnone & _)]; [|congruence].
  rewrite Hp, Hd. repeat split; try assumption; lia.
Qed.

Lemma pirate_combat_win_branch_witness :
  let out := Random.run (_execute_pirate_combat Sample.gunship
                           (pirate_stats_of 1) (mkAction "special_ability"))
                        (Random.constant 0) in
  pirate_durability out.1.2 ≤ 0 ∧
  Vehicle.current_cargo out.1.1 = Vehicle.current_cargo Sample.gunship ∧
  cargo_gained out.2 = {[ "artifacts"%string := 1 ]}.
Proof.
  assert (Hw : winner_id
                 (Random.run (_execute_pirate_combat Sample.gunship
                                (pirate_stats_of 1)
                                (mkAction "special_ability"))
                             (Random.constant 0)).2
               = Some (Vehicle.owner_id Sample.gunship))
    by (vm_compute; reflexivity).
  pose proof (pirate_combat_win_branch Sample.gunship (pirate_stats_of 1)
                (mkAction "special_ability") (Random.constant 0) Hw)
    as (Hp & _ & Hc & _).
  split; [exact Hp|]. split; [exact Hc|]. vm_compute. reflexivity.
Defined.

(** X4: an outgunned vehicle cannot win a pirate encounter.  The
    pirates are generated afresh by [handle_pirate_encounter] with
    durability [50 + 10 * danger] and defense [5 + 3 * danger], and one
    exchange deals at most [1.8 * attack_power - defense]; so whenever
    [9 * attack_power < 5 * (55 + 13 * danger)] (a default vehicle, attack
    power 10, at any danger level from 0 up) the encounter succeeds as a
    request, names no winner, and reports a credit loss between 100 and
    500, whatever the action and the rolls. *)
Theorem pirate_encounter_outgunned (db : DB) (vehicle_id : Z)
    (action : CombatAction) (user : Player.t) (vehicle : Vehicle.t)
    (g : Random.source) :
  vehicles db !! vehicle_id = Some vehicle →
  Vehicle.owner_id vehicle = Player.id user →
  0 ≤ Vehicle.attack_power vehicle →
  0 ≤ danger_level_of (Vehicles.current_location db vehicle) →
  9 * Vehicle.attack_power vehicle
    < 5 * (55 + 13 * danger_level_of (Vehicles.current_location db vehicle)) →
  ∃ result log,
    (Random.run (handle_pirate_encounter db vehicle_id action user) g).2
      = inr (result, log) ∧
    winner_id result = None ∧
    100 ≤ credits_lost result ≤ 500 ∧
    credits_gained result = 0 ∧ cargo_gained result = ∅.
Proof.
  intros Hv Hown Ha Hd Hweak. unfold handle_pirate_encounter.
  rewrite Hv. apply Z.eqb_eq in Hown. rewrite Hown. cbn [negb]. run_rolls.
  set (d := danger_level_of (Vehicles.current_location db vehicle)) in *.
  destruct (execute_pirate_combat_cases vehicle (pirate_stats_of d) action g)
    as (u1 & u2 & H1 & H2 & _ & _ & Hdealt & _ & _ & _ & Hcase).
  cbv zeta in Hdealt, Hcase. unfold Random.run in Hdealt, Hcase.
  destruct (_execute_pirate_combat vehicle (pirate_stats_of d) action g)
    as [[[v2 p2] r] g2].
  cbn [fst snd] in *. eexists _, _. split; [reflexivity|].
  destruct Hcase as [(Hle & _)|(_ & Hnone & Hl & Hg & Hcg & _)];
    [exfalso|done].
  pose proof (damage_multiplier_range action) as [Hm1 Hm2].
  pose proof (inject_Z_nonneg _ Ha) as Hq.
  assert (Hx : 5 * Py.py_int (inject_Z (Vehicle.attack_power vehicle)
                              * damage_multiplier action * u1)%Q
               ≤ 9 * Vehicle.attack_power vehicle).
  { destruct (attack_product_range _ _ _ Hq Hm1 Hm2 H1 H2) as [Hlo Hhi].
    by apply py_int_nine_fifths. }
  cbn [pirate_stats_of pirate_durability pirate_defense] in Hle. lia.
Qed.

Lemma pirate_encounter_outgunned_witness :
  ∃ result log,
    (Random.run (handle_pirate_encounter Sample.world 1 (mkAction "attack")
                   Sample.trader) (Random.constant 7)).2
      = inr (result, log) ∧
    winner_id result = None ∧
    100 ≤ credits_lost result ≤ 500 ∧
    credits_gained result = 0 ∧ cargo_gained result = ∅.
Proof.
  apply (pirate_encounter_outgunned Sample.world 1 (mkAction "attack")
           Sample.trader Sample.truck (Random.constant 7));
    try reflexivity; vm_compute; congruence.
Defined.

(** X5: what [handle_pirate_encounter] can touch.  A request for a
    missing vehicle, or one owned by someone else, is rejected with 404
    and writes nothing.  Otherwise only the row of that vehicle is
    written: locations and every other vehicle are as before, and the
    vehicle keeps its id, owner, place, fuel and travel state, with a
    durability no higher than before (or 0); the combat log repeats the
    winner and the losses of the result. *)
Theorem pirate_encounter_frame (db : DB) (vehicle_id : Z)
    (action : CombatAction) (user : Player.t) (g : Random.source) :
  let out := Random.run (handle_pirate_encounter db vehicle_id action user) g in
  locations out.1 = locations db ∧
  (∀ k, k ≠ vehicle_id → vehicles out.1 !! k = vehicles db !! k) ∧
  match out.2 with
  | inl e =>
      out.1 = db ∧
      e = HTTPException 404 "Vehicle not found or not owned by you" ∧
      (vehicles db !! vehicle_id = None
       ∨ ∃ v, vehicles db !! vehicle_id = Some v
              ∧ Vehicle.owner_id v ≠ Player.id user)
  | inr (result, log) =>
      ∃ v v', vehicles db !! vehicle_id = Some v ∧
              Vehicle.owner_id v = Player.id user ∧
              vehicles out.1 !! vehicle_id = Some v' ∧
              Vehicle.id v' = Vehicle.id v ∧
              Vehicle.owner_id v' = Vehicle.owner_id v ∧
              Vehicle.current_location_id v' = Vehicle.current_location_id v ∧
              Vehicle.current_fuel v' = Vehicle.current_fuel v ∧
              Vehicle.is_traveling v' = Vehicle.is_traveling v ∧
              Vehicle.destination_id v' = Vehicle.destination_id v ∧
              Vehicle.estimated_arrival v' = Vehicle.estimated_arrival v ∧
              Vehicle.durability v' ≤ Z.max 0 (Vehicle.durability v) ∧
              log_winner_id log = winner_id result ∧
              log_credits_lost log = credits_lost result ∧
              log_cargo_lost log = cargo_lost result
  end.
Proof.
  unfold handle_pirate_encounter.
  destruct (vehicles db !! vehicle_id) as [v|] eqn:Hv.
  2:{ cbn. split; [done|]. split; [done|]. split; [done|].
      split; [done|]. by left. }
  destruct (Z.eqb_spec (Vehicle.owner_id v) (Player.id user)) as [Hown|Hown];
    cbn [negb].
  2:{ cbn. split; [done|]. split; [done|]. split; [done|].
      split; [done|]. right. by exists v. }
  run_rolls.
  set (d := danger_level_of (Vehicles.current_location db v)).
  destruct (execute_pirate_combat_cases v (pirate_stats_of d) action g)
    as (u1 & u2 & _ & _ & H3 & H4 & _ & _ & _ & Hveh & _).
  cbv zeta in Hveh. unfold Random.run in Hveh.
  destruct (_execute_pirate_combat v (pirate_stats_of d) action g)
    as [[[v2 p2] r] g2].
  cbn [fst snd] in *. cbn [vehicles locations].
  split; [reflexivity|].
  split; [by intros k Hk; rewrite lookup_insert_ne|].
  exists v, (stored_vehicle v v2). split; [reflexivity|].
  split; [exact Hown|]. split; [apply lookup_insert_eq|].
  unfold stored_vehicle. rewrite Hveh.
  cbn [Vehicle.id Vehicle.owner_id Vehicle.current_location_id
       Vehicle.current_fuel Vehicle.is_traveling Vehicle.destination_id
       Vehicle.estimated_arrival Vehicle.durability Vehicle.set_durability
       Vehicle.set_current_cargo log_winner_id log_credits_lost
       log_cargo_lost].
  do 7 (split; [reflexivity|]). split; [|done].
  set (c := Z.max 1 (pirate_attack_power (pirate_stats_of d)
                     - Vehicle.defense v)).
  assert (0 ≤ Py.py_int (inject_Z c * u2)%Q ≤ c).
  { pose proof (inject_Z_nonneg c ltac:(lia)). apply py_int_range; nra. }
  lia.
Qed.

End PirateExtras.

(** ** The economic simulation, beyond one row *)

Section MarketExtras.

Import GameEngine.

Ltac run_rolls :=
  cbv [Random.run mbind random_bind Random.bind mret random_ret Random.ret].

(** X6: the simulation runs at most once per 300 seconds.  Once
    [_process_market_updates] has run at [current_time] (300 seconds or
    more after the last run), a further call at any time less than 300
    seconds later changes no row, keeps [last_market_update] and draws
    nothing from the random source. *)
Theorem market_updates_rate_limited (current_time last later : Z)
    (market_prices : list MarketPrice.t) (g g' : Random.source) :
  Py.seconds 300 ≤ current_time - last →
  later < current_time + Py.seconds 300 →
  let out := Random.run (_process_market_updates current_time last
                           market_prices) g in
  out.1 = current_time ∧
  _process_market_updates later out.1 out.2 g' = (out, g').
Proof.
  intros Hdue Hsoon. unfold _process_market_updates at 1 2.
  apply Z.ltb_ge in Hdue. rewrite Hdue. run_rolls.
  destruct (update_market_prices current_time market_prices g) as [ps g1].
  cbn [fst snd]. split; [reflexivity|].
  unfold _process_market_updates.
  assert (Hlt : (later - current_time <? Py.seconds 300) = true)
    by (apply Z.ltb_lt; lia).
  by rewrite Hlt.
Qed.

Lemma market_updates_rate_limited_witness :
  let out := Random.run (_process_market_updates (10 * Sample.day) 0
                           [Sample.glut_market]) (Random.constant 0) in
  _process_market_updates (10 * Sample.day + Py.seconds 299) out.1 out.2
                          (Random.constant 3)
  = (out, Random.constant 3).
Proof.
  apply (market_updates_rate_limited (10 * Sample.day) 0
           (10 * Sample.day + Py.seconds 299) [Sample.glut_market]
           (Random.constant 0) (Random.constant 3));
    vm_compute; [discriminate | reflexivity].
Defined.

(** X7: a due run of [_process_market_updates] keeps the table in
    shape.  It returns one row per row, in order, each with the same id,
    location and cargo kind; supply and demand come out at 0 or above
    and within 10 of what they were or of 0; a price that was at least 1
    is at least 1.  Every row is stored with a history: it holds no entry
    at or before the cutoff of 24 hours, every entry for another time
    than the current one was in the history before with the same data,
    and a row that had no history, or an empty one, ends with the point
    just recorded as its only entry. *)
Theorem market_updates_keep_rows (current_time last : Z)
    (market_prices : list MarketPrice.t) (g : Random.source) :
  Py.seconds 300 ≤ current_time - last →
  Forall2
    (λ p p',
       MarketPrice.id p' = MarketPrice.id p ∧
       MarketPrice.location_id p' = MarketPrice.location_id p ∧
       MarketPrice.cargo_type p' = MarketPrice.cargo_type p ∧
       0 ≤ MarketPrice.supply p' ∧ 0 ≤ MarketPrice.demand p' ∧
       MarketPrice.supply p' ≤ Z.max 0 (MarketPrice.supply p + 10) ∧
       MarketPrice.demand p' ≤ Z.max 0 (MarketPrice.demand p + 10) ∧
       (1 ≤ MarketPrice.buy_price p → 1 ≤ MarketPrice.buy_price p') ∧
       (1 ≤ MarketPrice.sell_price p → 1 ≤ MarketPrice.sell_price p') ∧
       ∃ h, MarketPrice.price_history p' = Some h ∧
            (∀ t pt, h !! t = Some pt → current_time - Py.hours 24 < t) ∧
            (∀ t pt, h !! t = Some pt → t ≠ current_time →
                     history_or_empty (MarketPrice.price_history p) !! t
                     = Some pt) ∧
            (history_or_empty (MarketPrice.price_history p) = ∅ →
             h = {[ current_time :=
                      mkPoint (MarketPrice.buy_price p')
                              (MarketPrice.sell_price p')
                              (MarketPrice.supply p')
                              (MarketPrice.demand p') ]}))
    market_prices
    (Random.run (_process_market_updates current_time last market_prices)
                g).2.
Proof.
  intros Hdue.
  destruct (process_market_updates_committed current_time last market_prices
              g Hdue) as [_ Hrows].
  eapply Forall2_impl; [exact Hrows|].
  intros p p' (sc & dc & Hsc & Hdc & ->).
  cbn [stored_market_price apply_market_change MarketPrice.id
       MarketPrice.location_id MarketPrice.cargo_type MarketPrice.supply
       MarketPrice.demand MarketPrice.buy_price MarketPrice.sell_price
       MarketPrice.price_history].
  do 3 (split; [reflexivity|]). do 4 (split; [lia|]).
  split; [apply adjust_price_floor|]. split; [apply adjust_price_floor|].
  set (point := mkPoint _ _ _ _).
  set (loaded := MarketPrice.price_history p).
  assert (Hnow : current_time - Py.hours 24 < current_time)
    by (unfold Py.hours; lia).
  destruct (stored_history_cases current_time point loaded)
    as [Hst|(m & Hl & Hm & Hst & Hw)]; cbv zeta in Hst; rewrite Hst.
  - eexists. split; [reflexivity|]. split; [|split].
    + intros t pt Ht. by apply record_history_lookup in Ht as [? _].
    + intros t pt Ht Hne.
      apply record_history_lookup in Ht as [_ [[? _]|[_ ?]]]; done.
    + intros He. unfold record_history. rewrite He, insert_empty.
      by apply map_filter_singleton_True.
  - exists m. split; [reflexivity|]. rewrite Hl. cbn [history_or_empty].
    split; [|split; [done|done]].
    intros t pt Ht. destruct (decide (t = current_time)) as [->|Hne];
      [done|].
    assert (Hin : record_history current_time point loaded !! t = Some pt)
      by (rewrite Hw, lookup_insert_ne; done).
    by apply record_history_lookup in Hin as [? _].
Qed.

Lemma market_updates_keep_rows_witness :
  Forall2 (λ p p', MarketPrice.id p' = MarketPrice.id p
                   ∧ 0 ≤ MarketPrice.supply p'
                   ∧ (1 ≤ MarketPrice.buy_price p
                      → 1 ≤ MarketPrice.buy_price p'))
    [Sample.fuel_market; Sample.glut_market]
    (Random.run (_process_market_updates (10 * Sample.day) 0
                   [Sample.fuel_market; Sample.glut_market])
                (Random.constant 0)).2.
Proof.
  eapply Forall2_impl.
  - apply (market_updates_keep_rows (10 * Sample.day) 0
             [Sample.fuel_market; Sample.glut_market] (Random.constant 0)).
    vm_compute. discriminate.
  - intros p p' (Hid & _ & _ & Hs & _ & _ & _ & Hb & _). by repeat split.
Defined.

Lemma choice_direction (g : Random.source) :
  (Random.choice "surge"%string ["surge"; "crash"]%string g).1 = "surge"%string
  ∨ (Random.choice "surge"%string ["surge"; "crash"]%string g).1
    = "crash"%string.
Proof.
  cbv [Random.choice Random.bind Random.next Random.ret]. cbn [fst length].
  pose proof (Z.mod_pos_bound (Random.draws g (Random.cursor g)) 2
                ltac:(lia)) as Hm.
  change (Z.of_nat 2) with 2.
  destruct (Z.to_nat (Random.draws g (Random.cursor g) `mod` 2))
    as [|[|n]] eqn:E; [by left | by right | lia].
Qed.

(** X8: the shape and the reach of a market-shift event.  The event
    created by [_create_market_shift_event] has type [MARKET_SHIFT],
    lasts 60 minutes, has a severity between 3 and 7, names exactly the
    locations it was given, and is a surge with multiplier 1.5 or a crash
    with multiplier 0.7.  Every row keeps its id, location, cargo kind,
    supply, demand and history; only rows of the drawn cargo kind at a
    named location can change, and a price of 2 or more never falls
    below 1. *)
Theorem market_shift_shape (location_ids : list Z)
    (market_prices : list MarketPrice.t) (g : Random.source) :
  let out := Random.run (_create_market_shift_event location_ids
                           market_prices) g in
  GameEvent.event_type out.1 = MARKET_SHIFT ∧
  GameEvent.duration_minutes out.1 = 60 ∧
  3 ≤ GameEvent.severity out.1 ≤ 7 ∧
  GameEvent.affected_locations out.1 = location_ids ∧
  ((GameEvent.shift_direction out.1 = "surge"%string
    ∧ GameEvent.price_multiplier out.1 = 3 # 2)
   ∨ (GameEvent.shift_direction out.1 = "crash"%string
      ∧ GameEvent.price_multiplier out.1 = 7 # 10)) ∧
  Forall2
    (λ p p',
       same_market p p' ∧
       (p' = p
        ∨ ((MarketPrice.location_id p ∈ location_ids)
           ∧ MarketPrice.cargo_type p = GameEvent.event_cargo_type out.1)) ∧
       (2 ≤ MarketPrice.buy_price p → 1 ≤ MarketPrice.buy_price p') ∧
       (2 ≤ MarketPrice.sell_price p → 1 ≤ MarketPrice.sell_price p'))
    market_prices out.2.
Proof.
  unfold _create_market_shift_event. run_rolls.
  destruct (Random.choice FOOD all_cargo_types g) as [cargo g1].
  pose proof (choice_direction g1) as Hdir.
  destruct (Random.choice "surge"%string ["surge"; "crash"]%string g1)
    as [direction g2]. cbn [fst] in Hdir.
  pose proof (randint_range 3 7 g2 ltac:(lia)) as Hsev.
  destruct (Random.randint 3 7 g2) as [severity g3]. cbn [fst] in Hsev.
  cbn [fst snd GameEvent.event_type GameEvent.duration_minutes
       GameEvent.severity GameEvent.affected_locations
       GameEvent.shift_direction GameEvent.price_multiplier
       GameEvent.event_cargo_type].
  do 2 (split; [reflexivity|]). split; [exact Hsev|].
  split; [reflexivity|].
  assert (Hmult : (if String.eqb direction "surge" then 3 # 2 else 7 # 10)
                  = 3 # 2
                  ∨ (if String.eqb direction "surge" then 3 # 2 else 7 # 10)
                    = 7 # 10)
    by (destruct (String.eqb direction "surge"); [by left|by right]).
  split; [destruct Hdir as [-> | ->]; [by left|by right]|].
  apply Forall2_fmap_r, Forall_Forall2_diag, Forall_forall.
  intros p _. unfold compose. cbv beta. unfold apply_shift.
  destruct (in_ (MarketPrice.location_id p) location_ids) eqn:Hin;
    cbn [andb];
    [|split; [by repeat split|]; split; [by left|]; split; lia].
  case_bool_decide as Hc;
    [|split; [by repeat split|]; split; [by left|]; split; lia].
  apply bool_decide_eq_true in Hin.
  split; [by repeat split|]. split; [by right|].
  cbn [MarketPrice.buy_price MarketPrice.sell_price].
  split; intros Hp; destruct Hmult as [-> | ->];
    rewrite py_int_scale, Z.quot_div_nonneg by lia;
    apply Z.div_le_lower_bound; lia.
Qed.

Lemma market_shift_shape_witness :
  let out := Random.run (_create_market_shift_event [1] [Sample.glut_market])
                        (Random.constant 0) in
  GameEvent.shift_direction out.1 = "surge"%string ∧
  (MarketPrice.buy_price <$> out.2) = [150] ∧
  Forall2 (λ p p', same_market p p') [Sample.glut_market] out.2.
Proof.
  pose proof (market_shift_shape [1] [Sample.glut_market] (Random.constant 0))
    as (_ & _ & _ & _ & _ & H).
  split; [vm_compute; reflexivity|]. split; [vm_compute; reflexivity|].
  eapply Forall2_impl; [exact H|]. by intros p p' (Hs & _).
Defined.

End MarketExtras.

(** ** The mission-deadline sweep, as a whole *)

Section MissionExtras.

Import GameEngine.

Lemma is_expired_failed (current_time : Z) (m : Mission.t) :
  is_expired current_time (Mission.set_status FAILED m) = false.
Proof. reflexivity. Qed.

Lemma check_mission_deadlines_none (current_time : Z)
    (missions : list Mission.t) (players : gmap Z Player.t) :
  Forall (λ m, is_expired current_time m = false) missions →
  _check_mission_deadlines current_time missions players
  = (missions, players).
Proof.
  induction 1 as [|m ms Hm _ IH]; [reflexivity|].
  cbn [_check_mission_deadlines]. by rewrite Hm, IH.
Qed.

(** X9: a mission is penalised at most once.  Sweeping again at the same
    time, over the missions and players the first sweep left, changes
    nothing: the failed missions are no longer selected and no player is
    charged a second time. *)
Theorem mission_sweep_idempotent (current_time : Z)
    (missions : list Mission.t) (players : gmap Z Player.t) :
  let out := _check_mission_deadlines current_time missions players in
  _check_mission_deadlines current_time out.1 out.2 = out.
Proof.
  cbv zeta.
  rewrite (surjective_pairing
             (_check_mission_deadlines current_time missions players)) at 3.
  rewrite check_mission_deadlines_status.
  apply check_mission_deadlines_none.
  apply Forall_fmap, Forall_forall. intros m _. cbn.
  destruct (is_expired current_time m) eqn:E; [reflexivity | exact E].
Qed.

Lemma never_better_refl (p : Player.t) : never_better p p.
Proof. unfold never_better. repeat split; auto; lia. Qed.

Lemma never_better_trans (p q r : Player.t) :
  never_better p q → never_better q r → never_better p r.
Proof.
  unfold never_better.
  intros (? & ? & ? & ?) (? & ? & ? & ?).
  split; [congruence|]. split; [congruence|]. split; [auto|].
  intros. assert (0 ≤ Player.reputation q ≤ Player.reputation p) by auto.
  assert (0 ≤ Player.reputation r ≤ Player.reputation q) by (auto; lia).
  lia.
Qed.

Lemma never_better_penalise (penalty : Z) (p : Player.t) :
  never_better p (penalise penalty p).
Proof. unfold never_better, penalise. cbn. repeat split; lia. Qed.

Lemma owes_cons (current_time : Z) (m : Mission.t) (ms : list Mission.t)
    (pid : Z) :
  owes current_time (m :: ms) pid ↔
  (is_expired current_time m = true ∧ Mission.player_id m = Some pid)
  ∨ owes current_time ms pid.
Proof.
  unfold owes. split.
  - intros (m' & [-> | Hin]%elem_of_cons & He & Hp); [by left|].
    right. by exists m'.
  - intros [[He Hp] | (m' & Hin & He & Hp)].
    + exists m. split; [apply elem_of_cons; by left|done].
    + exists m'. split; [apply elem_of_cons; by right|done].
Qed.

(** X10: whom the sweep touches.  After [_check_mission_deadlines] the
    list holds the same missions in the same order (ids unchanged), the
    player table has the same keys, a player who owns none of the
    selected missions has exactly the row it had, and any other player
    is the same player in the same place whose credits, if they were not
    negative, still are not, and whose reputation, if it was not
    negative, is between 0 and what it was. *)
Theorem mission_sweep_frame (current_time : Z) (missions : list Mission.t)
    (players : gmap Z Player.t) (pid : Z) :
  let out := _check_mission_deadlines current_time missions players in
  Mission.id <$> out.1 = Mission.id <$> missions ∧
  match players !! pid with
  | None => out.2 !! pid = None
  | Some p =>
      ∃ p', out.2 !! pid = Some p' ∧ never_better p p' ∧
            (p' = p ∨ owes current_time missions pid)
  end.
Proof.
  cbv zeta. split.
  - rewrite check_mission_deadlines_status, <- list_fmap_compose.
    apply list_fmap_ext. intros i m _. cbn.
    by destruct (is_expired current_time m).
  - revert players.
    induction missions as [|m ms IH]; intros players.
    + cbn. destruct (players !! pid) as [p|]; [|done].
      exists p. split; [done|]. split; [apply never_better_refl|by left].
    + cbn [_check_mission_deadlines].
      destruct (is_expired current_time m) eqn:He.
      * unfold fail_mission.
        destruct (Mission.player_id m) as [pid0|] eqn:Hp.
        2:{ specialize (IH players).
            destruct (_check_mission_deadlines current_time ms players)
              as [ms' ps']. cbn [snd] in *.
            destruct (players !! pid) as [p|]; [|done].
            destruct IH as (p' & Hl & Hb & Hc). exists p'.
            split; [done|]. split; [done|].
            destruct Hc as [->|Ho]; [by left|].
            right. apply owes_cons. by right. }
        destruct (players !! pid0) as [p0|] eqn:Hp0.
        2:{ specialize (IH players).
            destruct (_check_mission_deadlines current_time ms players)
              as [ms' ps']. cbn [snd] in *.
            destruct (players !! pid) as [p|]; [|done].
            destruct IH as (p' & Hl & Hb & Hc). exists p'.
            split; [done|]. split; [done|].
            destruct Hc as [->|Ho]; [by left|].
            right. apply owes_cons. by right. }
        specialize (IH (<[pid0 := penalise (penalty_of m) p0]> players)).
        destruct (_check_mission_deadlines current_time ms
                    (<[pid0 := penalise (penalty_of m) p0]> players))
          as [ms' ps']. cbn [snd] in *.
        destruct (decide (pid0 = pid)) as [->|Hne].
        -- rewrite lookup_insert_eq in IH. rewrite Hp0.
           destruct IH as (p' & Hl & Hb & Hc). exists p'.
           split; [done|].
           split; [eapply never_better_trans;
                   [apply never_better_penalise|exact Hb]|].
           right. apply owes_cons. by left.
        -- rewrite lookup_insert_ne in IH by done.
           destruct (players !! pid) as [p|]; [|done].
           destruct IH as (p' & Hl & Hb & Hc). exists p'.
           split; [done|]. split; [done|].
           destruct Hc as [->|Ho]; [by left|].
           right. apply owes_cons. by right.
      * specialize (IH players).
        destruct (_check_mission_deadlines current_time ms players)
          as [ms' ps']. cbn [snd] in *.
        destruct (players !! pid) as [p|]; [|done].
        destruct IH as (p' & Hl & Hb & Hc). exists p'.
        split; [done|]. split; [done|].
        destruct Hc as [->|Ho]; [by left|].
        right. apply owes_cons. by right.
Qed.

End MissionExtras.

(** ** Travel and repair, beyond the invariant *)

Section TravelExtras.

Import Vehicles GameEngine.

Variable fsqrt : Q → Q.

Lemma can_access_vehicle_spec (db : DB) (user : Player.t) (vehicle_id : Z) :
  can_access_vehicle db user vehicle_id = true ↔
  ∃ k v, vehicles db !! k = Some v
         ∧ Vehicle.owner_id v = Player.id user
         ∧ Vehicle.id v = vehicle_id.
Proof.
  unfold can_access_vehicle, user_vehicles. rewrite existsb_exists. split.
  - intros (v & Hin & Hid). apply list_elem_of_In in Hin.
    apply list_elem_of_filter in Hin as [Hown Hin].
    apply list_elem_of_fmap in Hin as ([k v'] & -> & Hin).
    apply elem_of_map_to_list in Hin.
    exists k, v'. split; [done|]. split; [done|]. by apply Z.eqb_eq.
  - intros (k & v & Hk & Hown & Hid). exists v.
    split; [|by apply Z.eqb_eq].
    apply list_elem_of_In, list_elem_of_filter. split; [done|].
    apply list_elem_of_fmap. exists (k, v). split; [done|].
    by apply elem_of_map_to_list.
Qed.

(** Rewriting a row without changing its id or owner changes nobody's
    access. *)
Lemma can_access_vehicle_insert (db : DB) (user : Player.t) (vehicle_id : Z)
    (k0 : Z) (v0 v1 : Vehicle.t) :
  vehicles db !! k0 = Some v0 →
  Vehicle.id v1 = Vehicle.id v0 →
  Vehicle.owner_id v1 = Vehicle.owner_id v0 →
  can_access_vehicle (mkDB (<[k0 := v1]> (vehicles db)) (locations db))
                     user vehicle_id
  = can_access_vehicle db user vehicle_id.
Proof.
  intros Hk0 Hid Hown. apply eq_true_iff_eq.
  rewrite !can_access_vehicle_spec. cbn [vehicles]. split.
  - intros (k & v & Hk & Ho & Hi).
    apply lookup_insert_Some in Hk as [[<- <-]|[Hne Hk]].
    + exists k0, v0. split; [done|]. split; congruence.
    + by exists k, v.
  - intros (k & v & Hk & Ho & Hi).
    destruct (decide (k0 = k)) as [<-|Hne].
    + exists k0, v1. rewrite lookup_insert_eq. split; [done|].
      assert (v = v0) as -> by congruence. split; congruence.
    + exists k, v. by rewrite lookup_insert_ne.
Qed.

(** Everything a successful [start_travel] has checked and written. *)
Lemma start_travel_success_full (now now' : Z) (db db' : DB) (vehicle_id : Z)
    (request : TravelRequest) (user : Player.t) (response : TravelResponse) :
  start_travel fsqrt now now' db vehicle_id request user
    = (db', inr response) →
  ∃ vehicle destination origin,
    vehicles db !! vehicle_id = Some vehicle ∧
    can_access_vehicle db user vehicle_id = true ∧
    Vehicle.is_traveling vehicle = false ∧
    locations db !! request_destination_id request = Some destination ∧
    current_location db vehicle = Some origin ∧
    Vehicle.speed vehicle ≠ 0 ∧
    let distance := distance_between fsqrt origin destination in
    let eta :=
      now' + Py.minutes
               (Py.py_int (distance / inject_Z (Vehicle.speed vehicle) * 60)%Q)
    in
    fuel_cost response = Py.py_int (distance * (1 # 10))%Q ∧
    fuel_cost response ≤ Vehicle.current_fuel vehicle ∧
    response_estimated_arrival response = Some eta ∧
    success response = true ∧
    db' = mkDB (<[vehicle_id :=
                    begin_journey (Location.id destination) now eta
                                  (fuel_cost response) vehicle]>
                  (vehicles db))
               (locations db).
Proof.
  unfold start_travel.
  destruct (vehicles db !! vehicle_id) as [vehicle|]; [|discriminate].
  destruct (can_access_vehicle db user vehicle_id); [|discriminate].
  cbn [negb].
  destruct (Vehicle.is_traveling vehicle) eqn:Htr; [discriminate|].
  destruct (locations db !! _) as [destination|]; [|discriminate].
  destruct (current_location db vehicle) as [origin|] eqn:Horig;
    [|discriminate].
  destruct (Z.eqb_spec (Vehicle.speed vehicle) 0) as [|Hspeed];
    [discriminate|].
  destruct (Z.ltb_spec (Vehicle.current_fuel vehicle)
              (Py.py_int (distance_between fsqrt origin destination
                          * (1 # 10))%Q)) as [|Hfuel]; [discriminate|].
  intros [= <- <-]. exists vehicle, destination, origin.
  cbn [fuel_cost response_estimated_arrival success]. cbv zeta.
  do 6 (split; [done|]). split; [reflexivity|]. split; [exact Hfuel|].
  by repeat split.
Qed.

(** X11: [start_travel] commits all of a journey or nothing.  Whatever
    the request, the locations and every other vehicle are untouched.
    If the call is rejected the database is exactly as it was.  If it
    succeeds, the vehicle was not travelling and now is, departed at the
    first clock reading, has paid exactly the fuel cost in the response
    out of fuel that covered it (so its fuel is not negative after a
    non-negative tank), and keeps its id, owner, place, durability and
    cargo. *)
Theorem start_travel_all_or_nothing (now now' : Z) (db : DB)
    (vehicle_id : Z) (request : TravelRequest) (user : Player.t) :
  let out := start_travel fsqrt now now' db vehicle_id request user in
  locations out.1 = locations db ∧
  (∀ k, k ≠ vehicle_id → vehicles out.1 !! k = vehicles db !! k) ∧
  match out.2 with
  | inl e => out.1 = db
  | inr response =>
      ∃ v v', vehicles db !! vehicle_id = Some v ∧
              vehicles out.1 !! vehicle_id = Some v' ∧
              Vehicle.is_traveling v = false ∧
              Vehicle.is_traveling v' = true ∧
              Vehicle.travel_start_time v' = Some now ∧
              fuel_cost response ≤ Vehicle.current_fuel v ∧
              Vehicle.current_fuel v'
                = Vehicle.current_fuel v - fuel_cost response ∧
              Vehicle.id v' = Vehicle.id v ∧
              Vehicle.owner_id v' = Vehicle.owner_id v ∧
              Vehicle.current_location_id v' = Vehicle.current_location_id v ∧
              Vehicle.durability v' = Vehicle.durability v ∧
              Vehicle.current_cargo v' = Vehicle.current_cargo v
  end.
Proof.
  cbv zeta.
  destruct (start_travel fsqrt now now' db vehicle_id request user)
    as [db' [e|r]] eqn:E; cbn [fst snd].
  - apply start_travel_failure in E as ->. by repeat split.
  - apply start_travel_success_full in E
      as (v & dest & orig & Hv & _ & Htr & _ & _ & _ & Hc & Hf & _ & _ & ->).
    cbn [vehicles locations]. split; [reflexivity|].
    split; [by intros k Hk; rewrite lookup_insert_ne|].
    eexists v, _. split; [exact Hv|]. split; [apply lookup_insert_eq|].
    cbn [begin_journey Vehicle.is_traveling Vehicle.travel_start_time
         Vehicle.current_fuel Vehicle.id Vehicle.owner_id
         Vehicle.current_location_id Vehicle.durability
         Vehicle.current_cargo].
    by repeat split.
Qed.

(** X12: a journey cannot be started twice.  After a successful
    [start_travel], any further [start_travel] by the same user for the
    same vehicle, whatever the destination and the time, is rejected
    with 400 "Vehicle is already traveling" and writes nothing. *)
Theorem start_travel_twice (now now' : Z) (db db' : DB) (vehicle_id : Z)
    (request : TravelRequest) (user : Player.t) (response : TravelResponse)
    (later later' : Z) (request' : TravelRequest) :
  start_travel fsqrt now now' db vehicle_id request user
    = (db', inr response) →
  start_travel fsqrt later later' db' vehicle_id request' user
  = (db', inl (HTTPException 400 "Vehicle is already traveling")).
Proof.
  intros E.
  apply start_travel_success_full in E
    as (v & dest & orig & Hv & Hacc & _ & _ & _ & _ & _ & _ & _ & _ & ->).
  unfold start_travel at 1. cbn [vehicles]. rewrite lookup_insert_eq.
  rewrite (can_access_vehicle_insert db user vehicle_id vehicle_id v)
    by done.
  by rewrite Hacc.
Qed.

(** X13: where a journey ends.  After a successful [start_travel] to a
    destination, [_update_vehicle_travels] leaves the vehicle exactly as
    it is, still travelling, at any time before the estimated arrival;
    at the estimated arrival or after, the vehicle stands at the
    destination, with the fuel it had at departure less the fuel cost. *)
Theorem travel_round_trip_arrives (now now' : Z) (db db' : DB)
    (vehicle_id : Z) (request : TravelRequest) (user : Player.t)
    (response : TravelResponse) (t : Z) :
  start_travel fsqrt now now' db vehicle_id request user
    = (db', inr response) →
  ∃ vehicle destination eta,
    vehicles db !! vehicle_id = Some vehicle ∧
    locations db !! request_destination_id request = Some destination ∧
    response_estimated_arrival response = Some eta ∧
    (t < eta →
     _update_vehicle_travels t (vehicles db') !! vehicle_id
     = vehicles db' !! vehicle_id) ∧
    (eta ≤ t →
     ∃ v', _update_vehicle_travels t (vehicles db') !! vehicle_id = Some v' ∧
           Vehicle.current_location_id v' = Some (Location.id destination) ∧
           Vehicle.current_fuel v'
             = Vehicle.current_fuel vehicle - fuel_cost response ∧
           Vehicle.is_traveling v' = false).
Proof.
  intros E.
  apply start_travel_success_full in E
    as (v & dest & orig & Hv & _ & _ & Hd & _ & _ & _ & _ & He & _ & ->).
  cbv zeta in He. exists v, dest. eexists.
  split; [exact Hv|]. split; [exact Hd|]. split; [exact He|].
  cbn [vehicles]. rewrite update_vehicle_travels_lookup, lookup_insert_eq.
  cbn [fmap option_fmap option_map]. unfold has_arrived.
  cbn [begin_journey Vehicle.is_traveling Vehicle.estimated_arrival andb].
  split; intros Ht.
  - apply Z.leb_gt in Ht. by rewrite Ht.
  - apply Z.leb_le in Ht. rewrite Ht. eexists. split; [reflexivity|].
    by repeat split.
Qed.

(** X14: arrival is not before departure.  When the clock does not run
    backwards between the two readings, the square root is not negative
    and the vehicle's speed is positive, a successful [start_travel]
    charges a fuel cost of 0 or more and sets an estimated arrival at or
    after the departure time. *)
Theorem travel_arrival_after_departure (now now' : Z) (db db' : DB)
    (vehicle_id : Z) (request : TravelRequest) (user : Player.t)
    (response : TravelResponse) :
  (∀ x, (0 <= fsqrt x)%Q) →
  now ≤ now' →
  (∀ v, vehicles db !! vehicle_id = Some v → 0 < Vehicle.speed v) →
  start_travel fsqrt now now' db vehicle_id request user
    = (db', inr response) →
  0 ≤ fuel_cost response ∧
  ∃ v' eta, vehicles db' !! vehicle_id = Some v' ∧
            Vehicle.travel_start_time v' = Some now ∧
            Vehicle.estimated_arrival v' = Some eta ∧
            now ≤ eta.
Proof.
  intros Hsqrt Hclock Hspeed E.
  apply start_travel_success_full in E
    as (v & dest & orig & Hv & _ & _ & _ & _ & _ & Hc & _ & _ & _ & ->).
  cbv zeta in Hc. specialize (Hspeed v Hv).
  pose proof (Hsqrt ((Location.x_coordinate dest
                      - Location.x_coordinate orig) ^ 2
                     + (Location.y_coordinate dest
                        - Location.y_coordinate orig) ^ 2)%Q) as Hd.
  fold (distance_between fsqrt orig dest) in Hd.
  set (d := distance_between fsqrt orig dest) in *.
  split.
  - rewrite Hc. destruct d as [n k]. unfold Qle in Hd. cbn in Hd.
    unfold Py.py_int. cbn [Qnum Qden Qmult].
    apply Z.quot_pos; lia.
  - eexists _, _. cbn [vehicles]. rewrite lookup_insert_eq.
    split; [reflexivity|].
    cbn [begin_journey Vehicle.travel_start_time Vehicle.estimated_arrival].
    split; [reflexivity|]. split; [reflexivity|].
    assert (0 ≤ Py.py_int (d / inject_Z (Vehicle.speed v) * 60)%Q).
    { destruct d as [n k]. unfold Qle in Hd. cbn in Hd.
      destruct (Vehicle.speed v) as [|s|s]; try lia.
      unfold Py.py_int. cbn [Qnum Qden Qmult Qdiv Qinv inject_Z].
      apply Z.quot_pos; lia. }
    unfold Py.minutes. lia.
Qed.

End TravelExtras.

Lemma start_travel_twice_witness :
  let first := Vehicles.start_travel Sample.isqrt 1000 1001 Sample.world 1
                 (mkTravelRequest 1 2) Sample.trader in
  Vehicles.start_travel Sample.isqrt 2000 2001 first.1 1 (mkTravelRequest 1 1)
               Sample.trader
  = (first.1, inl (HTTPException 400 "Vehicle is already traveling")).
Proof.
  destruct (Vehicles.start_travel Sample.isqrt 1000 1001 Sample.world 1
              (mkTravelRequest 1 2) Sample.trader) as [db2 [e|r]] eqn:E;
    [vm_compute in E; discriminate E|].
  cbn [fst].
  exact (start_travel_twice Sample.isqrt 1000 1001 Sample.world db2 1 (mkTravelRequest 1 2)
           Sample.trader r 2000 2001 (mkTravelRequest 1 1) E).
Defined.

Lemma travel_round_trip_arrives_witness :
  let first := Vehicles.start_travel Sample.isqrt 1000 1001 Sample.world 1
                 (mkTravelRequest 1 2) Sample.trader in
  ∃ v', GameEngine._update_vehicle_travels (1001 + Py.minutes 60) (vehicles first.1) !! 1
        = Some v' ∧
        Vehicle.current_location_id v' = Some 2 ∧
        Vehicle.current_fuel v' = 95.
Proof.
  destruct (Vehicles.start_travel Sample.isqrt 1000 1001 Sample.world 1
              (mkTravelRequest 1 2) Sample.trader) as [db2 [e|r]] eqn:E;
    [vm_compute in E; discriminate E|].
  destruct (travel_round_trip_arrives Sample.isqrt 1000 1001 Sample.world db2 1
              (mkTravelRequest 1 2) Sample.trader r (1001 + Py.minutes 60) E)
    as (v & dest & eta & Hv & Hd & He & _ & Harr).
  assert (Hr : r = mkTravelResponse true "Travel started to Citadel"
                     (Some (1001 + Py.minutes 60)) 5)
    by (vm_compute in E; injection E as _ <-; reflexivity).
  subst r. cbn [response_estimated_arrival fuel_cost] in *.
  injection He as <-.
  destruct (Harr ltac:(lia)) as (v' & Hl & Hloc & Hfuel & _).
  exists v'. cbn [fst]. split; [exact Hl|].
  assert (dest = Sample.citadel) as ->
    by (vm_compute in Hd; injection Hd as <-; reflexivity).
  assert (v = Sample.truck) as ->
    by (vm_compute in Hv; injection Hv as <-; reflexivity).
  split; [exact Hloc | exact Hfuel].
Defined.

Lemma isqrt_nonneg (x : Q) : (0 <= Sample.isqrt x)%Q.
Proof.
  unfold Sample.isqrt, Qle. cbn.
  pose proof (Z.sqrt_nonneg (Py.py_int x)). lia.
Qed.

Lemma travel_arrival_after_departure_witness :
  let first := Vehicles.start_travel Sample.isqrt 1000 1001 Sample.world 1
                 (mkTravelRequest 1 2) Sample.trader in
  ∃ v' eta, vehicles first.1 !! 1 = Some v' ∧
            Vehicle.travel_start_time v' = Some 1000 ∧
            Vehicle.estimated_arrival v' = Some eta ∧
            1000 ≤ eta.
Proof.
  destruct (Vehicles.start_travel Sample.isqrt 1000 1001 Sample.world 1
              (mkTravelRequest 1 2) Sample.trader) as [db2 [e|r]] eqn:E;
    [vm_compute in E; discriminate E|].
  cbn [fst].
  refine (proj2 (travel_arrival_after_departure Sample.isqrt 1000 1001
                   Sample.world db2 1 (mkTravelRequest 1 2) Sample.trader r
                   isqrt_nonneg _ _ E)).
  - lia.
  - intros v Hv. vm_compute in Hv. injection Hv as <-. reflexivity.
Defined.

(** ** Stalled vehicles, resolution and repairs *)

Section GarageFacts.

Import Vehicles GameEngine.

Variable fsqrt : Q → Q.

(** X15: a vehicle whose speed is 0 cannot be sent anywhere, and not
    with a rejection: once the checks before the distance computation
    have passed, [start_travel] ends in the uncaught [ZeroDivisionError]
    of [distance / vehicle.speed], however much fuel the vehicle has;
    nothing is written. *)
Theorem start_travel_zero_speed (now now' : Z) (db : DB) (vehicle_id : Z)
    (request : TravelRequest) (user : Player.t) (vehicle : Vehicle.t)
    (origin destination : Location.t) :
  vehicles db !! vehicle_id = Some vehicle →
  can_access_vehicle db user vehicle_id = true →
  Vehicle.is_traveling vehicle = false →
  locations db !! request_destination_id request = Some destination →
  current_location db vehicle = Some origin →
  Vehicle.speed vehicle = 0 →
  start_travel fsqrt now now' db vehicle_id request user
  = (db, inl ZeroDivisionError).
Proof.
  intros Hv Hacc Htr Hdest Horig Hspeed. unfold start_travel.
  by rewrite Hv, Hacc, Htr, Hdest, Horig, Hspeed.
Qed.

(** X16: travel resolution settles in one pass.  Running
    [_update_vehicle_travels] a second time at the same instant changes
    nothing.  One pass keeps the set of vehicles; each vehicle keeps its
    id, owner, fuel, durability and cargo; it is either exactly as it
    was, or it was travelling and due and now stands, not travelling, at
    what was its destination; and afterwards no vehicle is both
    travelling and due. *)
Theorem update_vehicle_travels_settles (current_time : Z)
    (vs : gmap Z Vehicle.t) (k : Z) :
  let resolved := _update_vehicle_travels current_time vs in
  _update_vehicle_travels current_time resolved = resolved ∧
  match vs !! k with
  | None => resolved !! k = None
  | Some v =>
      ∃ v', resolved !! k = Some v' ∧
            Vehicle.id v' = Vehicle.id v ∧
            Vehicle.owner_id v' = Vehicle.owner_id v ∧
            Vehicle.current_fuel v' = Vehicle.current_fuel v ∧
            Vehicle.durability v' = Vehicle.durability v ∧
            Vehicle.current_cargo v' = Vehicle.current_cargo v ∧
            (v' = v
             ∨ (has_arrived current_time v = true ∧
                Vehicle.is_traveling v' = false ∧
                Vehicle.current_location_id v' = Vehicle.destination_id v)) ∧
            has_arrived current_time v' = false
  end.
Proof.
  cbv zeta. split.
  - apply map_eq. intros i. rewrite !update_vehicle_travels_lookup.
    destruct (vs !! i) as [v|]; [|reflexivity].
    cbn [fmap option_fmap option_map]. f_equal.
    destruct (has_arrived current_time v) eqn:E; [reflexivity|].
    by rewrite E.
  - rewrite update_vehicle_travels_lookup.
    destruct (vs !! k) as [v|]; [|reflexivity].
    cbn [fmap option_fmap option_map]. eexists. split; [reflexivity|].
    destruct (has_arrived current_time v) eqn:E.
    + do 5 (split; [reflexivity|]). split; [|reflexivity].
      right. by repeat split.
    + do 5 (split; [reflexivity|]). split; [by left|exact E].
Qed.

(** X17: the books of [repair_vehicle].  The locations and every other
    vehicle are untouched.  A rejected request changes neither the
    database nor the player's credits.  A repair brings the vehicle to
    its maximum durability and nothing else of it, costs exactly 5
    credits per point of durability restored, is never free, is paid out
    of credits that covered it, and so keeps
    [credits + 5 * durability] constant.  (A vehicle above its maximum
    has a negative cost: it is brought down and the player is paid.) *)
Theorem repair_vehicle_accounting (db : DB) (vehicle_id : Z)
    (user : Player.t) :
  let out := repair_vehicle db vehicle_id user in
  locations out.1.1 = locations db ∧
  (∀ k, k ≠ vehicle_id → vehicles out.1.1 !! k = vehicles db !! k) ∧
  match out.2 with
  | inl e => out.1.1 = db ∧ out.1.2 = user
  | inr response =>
      ∃ v v', vehicles db !! vehicle_id = Some v ∧
              vehicles out.1.1 !! vehicle_id = Some v' ∧
              v' = Vehicle.set_durability (Vehicle.max_durability v) v ∧
              current_durability response = Vehicle.max_durability v ∧
              repair_cost response
                = 5 * (Vehicle.max_durability v - Vehicle.durability v) ∧
              repair_cost response ≠ 0 ∧
              repair_cost response ≤ Player.credits user ∧
              Player.credits out.1.2
                = Player.credits user - repair_cost response ∧
              Player.credits out.1.2 + 5 * Vehicle.durability v'
                = Player.credits user + 5 * Vehicle.durability v ∧
              Player.id out.1.2 = Player.id user ∧
              Player.reputation out.1.2 = Player.reputation user
  end.
Proof.
  unfold repair_vehicle.
  destruct (vehicles db !! vehicle_id) as [v|] eqn:Hv; [|by cbn].
  destruct (negb _); [by cbn|].
  destruct (Z.eqb_spec ((Vehicle.max_durability v - Vehicle.durability v) * 5)
              0) as [|Hcost]; [by cbn|].
  destruct (Z.ltb_spec (Player.credits user)
              ((Vehicle.max_durability v - Vehicle.durability v) * 5))
    as [|Hpay]; [by cbn|].
  cbn [fst snd vehicles locations]. split; [reflexivity|].
  split; [by intros k Hk; rewrite lookup_insert_ne|].
  exists v, (repair v). split; [reflexivity|].
  split; [apply lookup_insert_eq|].
  unfold repair, pay.
  cbn [repair_cost current_durability Player.credits Player.id
       Player.reputation Vehicle.durability Vehicle.set_durability].
  repeat split; lia.
Qed.

(** X18: a repaired vehicle needs no repair.  Right after a successful
    [repair_vehicle], the same request by the same player is rejected
    with 400 "Vehicle doesn't need repairs" and nothing more is
    charged. *)
Theorem repair_vehicle_twice (db : DB) (vehicle_id : Z) (user : Player.t)
    (response : RepairResponse) :
  (repair_vehicle db vehicle_id user).2 = inr response →
  let first := repair_vehicle db vehicle_id user in
  repair_vehicle first.1.1 vehicle_id first.1.2
  = (first.1, inl (HTTPException 400 "Vehicle doesn't need repairs")).
Proof.
  unfold repair_vehicle at 1 2.
  destruct (vehicles db !! vehicle_id) as [v|] eqn:Hv; [|discriminate].
  destruct (can_access_vehicle db user vehicle_id) eqn:Hacc;
    [|discriminate]. cbn [negb].
  destruct (_ =? 0); [discriminate|].
  destruct (_ <? _); [discriminate|].
  intros _. cbn [fst snd]. unfold repair_vehicle. cbn [vehicles].
  rewrite lookup_insert_eq.
  rewrite (can_access_vehicle_insert db (pay _ user) vehicle_id vehicle_id v)
    by done.
  assert (Hacc' : ∀ c, can_access_vehicle db (pay c user) vehicle_id
                       = can_access_vehicle db user vehicle_id)
    by reflexivity.
  rewrite Hacc', Hacc. cbn [negb].
  unfold repair.
  cbn [Vehicle.max_durability Vehicle.durability Vehicle.set_durability].
  by rewrite Z.sub_diag.
Qed.

End GarageFacts.

Lemma start_travel_zero_speed_witness :
  Vehicles.start_travel Sample.isqrt 1000 1001 Sample.scrapyard 5
    (mkTravelRequest 5 2) Sample.trader
  = (Sample.scrapyard, inl ZeroDivisionError).
Proof.
  apply (start_travel_zero_speed Sample.isqrt 1000 1001 Sample.scrapyard 5
           (mkTravelRequest 5 2) Sample.trader Sample.wreck Sample.harbour
           Sample.citadel); vm_compute; reflexivity.
Defined.

Lemma repair_vehicle_twice_witness :
  let first := Vehicles.repair_vehicle Sample.scrapyard 5 Sample.trader in
  Player.credits first.1.2 = 750 ∧
  Vehicles.repair_vehicle first.1.1 5 first.1.2
  = (first.1, inl (HTTPException 400 "Vehicle doesn't need repairs")).
Proof.
  split; [vm_compute; reflexivity|].
  apply (repair_vehicle_twice Sample.scrapyard 5 Sample.trader
           (mkRepairResponse "Vehicle repaired successfully" 250 100)).
  vm_compute. reflexivity.
Defined.

(** ** Encounters and event expiry *)

Section EventFacts.

Import GameEngine.

(** X19: how the danger level decides an encounter.  With no current
    location [_check_travel_encounters] sends nothing and draws nothing.
    Otherwise one roll is drawn and compared with
    [danger_level * 0.05]: at danger level 0 or below there is never an
    encounter, at 20 or above there always is, and an encounter implies
    a danger level of at least 1. *)
Theorem travel_encounter_bounds (location : Location.t) (g : Random.source) :
  _check_travel_encounters None g = (false, g) ∧
  let sent := Random.run (_check_travel_encounters (Some location)) g in
  (Location.danger_level location ≤ 0 → sent = false) ∧
  (20 ≤ Location.danger_level location → sent = true) ∧
  (sent = true → 1 ≤ Location.danger_level location) ∧
  Random.cursor (_check_travel_encounters (Some location) g).2
  = S (Random.cursor g).
Proof.
  split; [reflexivity|]. unfold _check_travel_encounters.
  cbv [Random.run mbind random_bind Random.bind Random.random Random.next
       mret random_ret Random.ret].
  cbn [fst snd Random.cursor Random.draws].
  destruct (random_unit (Random.draws g (Random.cursor g))) as [H0 H1].
  set (roll := (Random.draws g (Random.cursor g) `mod` Random.two53
                # Z.to_pos Random.two53)) in *.
  set (d := Location.danger_level location).
  split; [|split; [|split; [|reflexivity]]].
  - intros Hle. apply not_true_iff_false. rewrite lt_spec.
    assert (inject_Z d <= 0)%Q by (unfold Qle; cbn; lia).
    apply Qle_not_lt. lra.
  - intros Hge. apply lt_spec.
    assert (20 <= inject_Z d)%Q by (unfold Qle; cbn; lia).
    lra.
  - intros Hs%lt_spec. destruct (Z_lt_le_dec 0 d) as [|Hle]; [lia|].
    exfalso. assert (inject_Z d <= 0)%Q by (unfold Qle; cbn; lia).
    lra.
Qed.

Lemma travel_encounter_bounds_witness :
  Random.run (_check_travel_encounters
                (Some (Location.mk 9 "Maelstrom" 0 0 20)))
             (Random.constant 12345) = true.
Proof.
  destruct (travel_encounter_bounds (Location.mk 9 "Maelstrom" 0 0 20)
              (Random.constant 12345)) as (_ & _ & H & _).
  apply H. cbn. lia.
Defined.

Lemma event_expired_spec (current_time : Z) (e : ActiveEvent.t) :
  event_expired current_time e = true ↔
  (∃ end_time, ActiveEvent.end_time e = Some end_time
               ∧ end_time < current_time)
  ∨ (GameEvent.duration_minutes (ActiveEvent.event e) ≠ 0
     ∧ ActiveEvent.start_time e
       + Py.minutes (GameEvent.duration_minutes (ActiveEvent.event e))
       < current_time).
Proof.
  unfold event_expired.
  destruct (ActiveEvent.end_time e) as [t|].
  - destruct (Z.ltb_spec t current_time) as [Hlt|Hge].
    + split; [|done]. intros _. left. by exists t.
    + destruct (Z.eqb_spec (GameEvent.duration_minutes (ActiveEvent.event e))
                  0) as [Hz|Hnz]; cbn [negb].
      * split; [done|]. intros [(t' & [= <-] & ?)|[? _]]; [lia|done].
      * rewrite Z.ltb_lt. split; [by right|].
        intros [(t' & [= <-] & ?)|[_ ?]]; [lia|done].
  - destruct (Z.eqb_spec (GameEvent.duration_minutes (ActiveEvent.event e))
                0) as [Hz|Hnz]; cbn [negb].
    + split; [done|]. intros [(t' & [=] & ?)|[? _]]; done.
    + rewrite Z.ltb_lt. split; [by right|].
      intros [(t' & [=] & ?)|[_ ?]]; done.
Qed.

(** X20: the expiry sweep.  An event is ended exactly when its end
    time has passed or, whether or not it has an end time, its non-zero
    duration has run out since its start.  [_process_active_events]
    splits the index accordingly: an event that is not due stays in the
    index untouched; an event that is due leaves the index and is written
    back inactive, with the time of the sweep as end time and the same
    event data.  A second sweep at the same time ends nothing. *)
Theorem process_active_events_partition (current_time : Z)
    (active_events : gmap Z ActiveEvent.t) (k : Z) :
  let out := _process_active_events current_time active_events in
  _process_active_events current_time out.1 = (out.1, ∅) ∧
  (∀ e, event_expired current_time e = true ↔
        (∃ end_time, ActiveEvent.end_time e = Some end_time
                     ∧ end_time < current_time)
        ∨ (GameEvent.duration_minutes (ActiveEvent.event e) ≠ 0
           ∧ ActiveEvent.start_time e
             + Py.minutes (GameEvent.duration_minutes (ActiveEvent.event e))
             < current_time)) ∧
  match active_events !! k with
  | None => out.1 !! k = None ∧ out.2 !! k = None
  | Some e =>
      (event_expired current_time e = false
       ∧ out.1 !! k = Some e ∧ out.2 !! k = None)
      ∨ (event_expired current_time e = true
         ∧ out.1 !! k = None
         ∧ ∃ e', out.2 !! k = Some e'
                 ∧ ActiveEvent.is_active e' = false
                 ∧ ActiveEvent.end_time e' = Some current_time
                 ∧ ActiveEvent.event e' = ActiveEvent.event e
                 ∧ ActiveEvent.start_time e' = ActiveEvent.start_time e)
  end.
Proof.
  cbv zeta.
  assert (Hkeep : ∀ (m : gmap Z ActiveEvent.t) i,
             filter (λ entry : Z * ActiveEvent.t,
                       filter (λ entry : Z * ActiveEvent.t,
                                 event_expired current_time entry.2 = true) m
                       !! entry.1 = None) m !! i
             = match m !! i with
               | Some e => if event_expired current_time e then None
                           else Some e
               | None => None
               end).
  { intros m i. destruct (m !! i) as [e|] eqn:Hi.
    - destruct (event_expired current_time e) eqn:He.
      + apply map_lookup_filter_None. right. intros e' Hi' Hnone.
        cbn [fst] in Hnone. apply map_lookup_filter_None in Hnone
          as [Hnone|Hnone]; [congruence|].
        assert (e' = e) as -> by congruence. by apply (Hnone e).
      + apply map_lookup_filter_Some. split; [done|]. cbn [fst].
        apply map_lookup_filter_None. right. intros e' Hi' Hexp.
        cbn [snd] in Hexp. congruence.
    - apply map_lookup_filter_None. by left. }
  split; [|split; [apply event_expired_spec|]].
  - unfold _process_active_events. cbn [fst snd]. f_equal.
    + apply map_eq. intros i. rewrite !Hkeep.
      destruct (active_events !! i) as [e|]; [|done].
      destruct (event_expired current_time e) eqn:He; [done|].
      by rewrite He.
    + apply map_eq. intros i. rewrite lookup_fmap, lookup_empty.
      apply fmap_None, map_lookup_filter_None.
      right. intros e Hi He. cbn [snd] in He.
      rewrite Hkeep in Hi. destruct (active_events !! i) as [e0|]; [|done].
      destruct (event_expired current_time e0) eqn:He0; [done|].
      congruence.
  - unfold _process_active_events. cbn [fst snd].
    rewrite Hkeep, lookup_fmap.
    destruct (active_events !! k) as [e|] eqn:Hk.
    + destruct (event_expired current_time e) eqn:He.
      * right. split; [done|]. split; [done|].
        exists (end_event current_time e). split; [|done].
        apply fmap_Some. exists e. split; [|done].
        by apply map_lookup_filter_Some.
      * left. split; [done|]. split; [done|].
        apply fmap_None, map_lookup_filter_None. right.
        intros e' Hk' He'. cbn [snd] in He'. congruence.
    + split; [done|]. apply fmap_None, map_lookup_filter_None. by left.
Qed.

End EventFacts.

(** ** The connection registry, beyond disconnect *)

Section RegistryExtras.

Import WebSocketManager.

Implicit Types (groups : gmap Z (gset Z)) (self : t).

Lemma without_player_keeps p self q l :
  locations_complete self → q ≠ p →
  player_locations self !! q = Some l →
  ∃ g : gset Z, without_player p self !! l = Some g ∧ q ∈ g.
Proof.
  intros Hc Hne Hq. destruct (Hc q l Hq) as (g & Hg & Hin).
  unfold without_player. destruct (player_locations self !! p) as [l0|];
    [|by exists g].
  destruct (decide (l = l0)) as [->|Hl].
  - exists (g ∖ {[p]}). split; [|set_solver].
    apply discard_from_Some. left. split; [done|].
    split; [set_solver|]. by exists g.
  - exists g. split; [|done]. apply discard_from_Some. by right.
Qed.

Lemma disconnect_complete p self :
  locations_complete self → locations_complete (disconnect p self).
Proof.
  intros Hc q l. rewrite disconnect_player_locations,
    disconnect_location_groups.
  intros [Hne Hq]%lookup_delete_Some. by eapply without_player_keeps.
Qed.

Lemma send_personal_message_complete p send_ok self :
  locations_complete self →
  locations_complete (send_personal_message p send_ok self).
Proof.
  intros Hc. unfold send_personal_message.
  destruct (active_connections self !! p); [|done].
  destruct send_ok; [done|]. by apply disconnect_complete.
Qed.

Lemma update_player_location_complete p l self :
  locations_complete self →
  locations_complete (update_player_location p l self).
Proof.
  intros Hc q l'. unfold update_player_location.
  fold (without_player p self). cbn [player_locations location_groups].
  intros [[<- <-]|[Hne Hq]]%lookup_insert_Some.
  - eexists. split; [apply add_to_Some; by left|]. set_solver.
  - destruct (without_player_keeps p self q l' Hc) as (g & Hg & Hin);
      [done|done|].
    destruct (decide (l' = l)) as [->|Hl].
    + eexists. split; [apply add_to_Some; by left|].
      rewrite Hg. cbn. set_solver.
    + exists g. split; [|done]. apply add_to_Some. by right.
Qed.

Lemma reachable_complete self : reachable self → locations_complete self.
Proof.
  induction 1.
  - intros p l. unfold init. cbn. by rewrite lookup_empty.
  - unfold connect. by apply send_personal_message_complete.
  - by apply disconnect_complete.
  - by apply send_personal_message_complete.
  - by apply update_player_location_complete.
  - done.
Qed.

Lemma registry_location_exact_aux self (p l : Z) :
  reachable self →
  p ∈ get_players_at_location l self ↔ player_locations self !! p = Some l.
Proof.
  intros Hr. pose proof (reachable_ok self Hr) as (_ & _ & Hcons).
  pose proof (reachable_complete self Hr) as Hcomp.
  unfold get_players_at_location. split.
  - destruct (location_groups self !! l) as [g|] eqn:Hg; cbn;
      [|set_solver]. by apply Hcons.
  - intros (g & -> & Hin)%Hcomp. done.
Qed.

(** X21: the registry's location index is exact.  In every state its
    operations can build, a player is among
    [get_players_at_location(l)] if and only if [player_locations] puts
    it at [l]; so a player is in at most one location group, and no
    location or alliance group is empty. *)
Theorem registry_location_index_exact self (player_id location_id : Z) :
  reachable self →
  (player_id ∈ get_players_at_location location_id self
   ↔ player_locations self !! player_id = Some location_id) ∧
  (∀ l l', player_id ∈ get_players_at_location l self →
           player_id ∈ get_players_at_location l' self → l = l') ∧
  groups_nonempty (location_groups self) ∧
  groups_nonempty (alliance_groups self).
Proof.
  intros Hr. pose proof (reachable_ok self Hr) as (Hne & Hane & _).
  split; [by apply registry_location_exact_aux|]. split; [|done].
  intros l l' H1 H2.
  apply (registry_location_exact_aux _ _ _ Hr) in H1, H2. congruence.
Qed.

Lemma registry_location_index_exact_witness :
  get_players_at_location 5 Sample.lobby = {[ 7; 8 ]} ∧
  (7 ∈ get_players_at_location 5 Sample.lobby
   ↔ player_locations Sample.lobby !! 7 = Some 5).
Proof.
  split; [vm_compute; reflexivity|].
  apply (registry_location_index_exact Sample.lobby 7 5).
  unfold Sample.lobby. repeat constructor.
Defined.

(** X22: [update_player_location] moves one player and nobody else.
    In every reachable state, afterwards the player is recorded at the
    new location and is a member of that location's group only; every
    other player is in exactly the groups it was in; connections and
    alliance groups are as before. *)
Theorem update_player_location_moves self (player_id location_id : Z) :
  reachable self →
  let self' := update_player_location player_id location_id self in
  player_locations self' !! player_id = Some location_id ∧
  (∀ l, player_id ∈ get_players_at_location l self' ↔ l = location_id) ∧
  (∀ q l, q ≠ player_id →
          (q ∈ get_players_at_location l self'
           ↔ q ∈ get_players_at_location l self)) ∧
  active_connections self' = active_connections self ∧
  alliance_groups self' = alliance_groups self.
Proof.
  intros Hr. cbv zeta.
  assert (Hr' : reachable (update_player_location player_id location_id self))
    by by constructor.
  assert (Hloc : player_locations
                   (update_player_location player_id location_id self)
                 = <[player_id := location_id]> (player_locations self))
    by reflexivity.
  split; [rewrite Hloc; apply lookup_insert_eq|].
  split; [|split; [|done]].
  - intros l.
    rewrite (registry_location_exact_aux _ player_id l Hr'), Hloc,
      lookup_insert_eq. split; congruence.
  - intros q l Hne.
    rewrite (registry_location_exact_aux _ q l Hr'),
      (registry_location_exact_aux _ q l Hr), Hloc.
    by rewrite lookup_insert_ne.
Qed.

Lemma update_player_location_moves_witness :
  let self' := update_player_location 7 6 Sample.lobby in
  player_locations self' !! 7 = Some 6 ∧
  (∀ l, 7 ∈ get_players_at_location l self' ↔ l = 6) ∧
  (8 ∈ get_players_at_location 5 self'
   ↔ 8 ∈ get_players_at_location 5 Sample.lobby).
Proof.
  destruct (update_player_location_moves Sample.lobby 7 6) as (H1 & H2 & H3 & _).
  { unfold Sample.lobby. repeat constructor. }
  split; [exact H1|]. split; [exact H2|]. apply H3. lia.
Defined.

Lemma map_eq_Some {A} (m1 m2 : gmap Z A) :
  (∀ i x, m1 !! i = Some x ↔ m2 !! i = Some x) → m1 = m2.
Proof.
  intros H. apply map_eq. intros i.
  destruct (m1 !! i) as [x|] eqn:E1.
  - symmetry. by apply H.
  - destruct (m2 !! i) as [y|] eqn:E2; [|done].
    apply H in E2. congruence.
Qed.

Lemma disconnect_active_connections p self :
  active_connections (disconnect p self) = delete p (active_connections self).
Proof. unfold disconnect. by destruct (player_locations self !! p). Qed.

(** X23: a player can be disconnected twice.  In any state,
    disconnecting a player that has just been disconnected (or was never
    known) leaves the registry exactly as it is; a failed send to a
    player already dropped, as when several broadcasts fail on the same
    channel, is harmless. *)
Theorem disconnect_idempotent self (player_id : Z) :
  disconnect player_id (disconnect player_id self)
  = disconnect player_id self.
Proof.
  set (s1 := disconnect player_id self).
  assert (Hloc : player_locations s1 !! player_id = None).
  { subst s1. rewrite disconnect_player_locations. apply lookup_delete_eq. }
  assert (Hall : alliance_groups (disconnect player_id s1)
                 = alliance_groups s1).
  { apply map_eq_Some. intros a g. rewrite disconnect_alliance_groups.
    split.
    - intros (Hne & g0 & Hg0 & ->).
      assert (Hnot : player_id ∉ g0).
      { subst s1. apply disconnect_alliance_groups in Hg0
          as (_ & g1 & _ & ->). set_solver. }
      replace (g0 ∖ {[player_id]}) with g0 by set_solver. done.
    - intros Hg. pose proof Hg as Hg'. subst s1.
      apply disconnect_alliance_groups in Hg' as (Hne & g1 & _ & ->).
      split; [set_solver|]. eexists. split; [exact Hg|]. set_solver. }
  assert (Hact : active_connections (disconnect player_id s1)
                 = active_connections s1).
  { rewrite disconnect_active_connections. apply delete_id.
    subst s1. rewrite disconnect_active_connections. apply lookup_delete_eq. }
  assert (Hgrp : location_groups (disconnect player_id s1)
                 = location_groups s1).
  { rewrite disconnect_location_groups. unfold without_player.
    by rewrite Hloc. }
  assert (Hpl : player_locations (disconnect player_id s1)
                = player_locations s1).
  { rewrite disconnect_player_locations. by apply delete_id. }
  destruct (disconnect player_id s1) as [a1 l1 g1 al1].
  destruct s1 as [a0 l0 g0 al0]. cbn in *. congruence.
Qed.

(** X24: disconnecting one player leaves the others alone.  In any
    state, after [disconnect(p)] every other player has the connection
    and the recorded location it had, and is a member of exactly the
    location groups and alliance groups it was a member of. *)
Theorem disconnect_frame self (player_id q : Z) :
  q ≠ player_id →
  let self' := disconnect player_id self in
  active_connections self' !! q = active_connections self !! q ∧
  player_locations self' !! q = player_locations self !! q ∧
  (∀ l, q ∈ get_players_at_location l self'
        ↔ q ∈ get_players_at_location l self) ∧
  (∀ a, q ∈ get_alliance_members_online a self'
        ↔ q ∈ get_alliance_members_online a self).
Proof.
  intros Hne. cbv zeta.
  split; [by rewrite disconnect_active_connections, lookup_delete_ne|].
  split; [by rewrite disconnect_player_locations, lookup_delete_ne|].
  split.
  - intros l. unfold get_players_at_location.
    rewrite disconnect_location_groups. unfold without_player.
    destruct (player_locations self !! player_id) as [l0|]; [|done].
    destruct (discard_from l0 player_id (location_groups self) !! l)
      as [g|] eqn:E.
    + apply discard_from_Some in E as [(-> & _ & g0 & -> & ->)|[_ ->]];
        cbn; set_solver.
    + cbn. split; [set_solver|].
      destruct (location_groups self !! l) as [g0|] eqn:E0; cbn;
        [|set_solver].
      intros Hin. exfalso.
      destruct (decide (l = l0)) as [->|Hl].
      * assert (Hsome : discard_from l0 player_id (location_groups self)
                        !! l0 = Some (g0 ∖ {[player_id]})).
        { apply discard_from_Some. left. split; [done|].
          split; [set_solver|]. by exists g0. }
        congruence.
      * assert (Hsome : discard_from l0 player_id (location_groups self)
                        !! l = Some g0)
          by (apply discard_from_Some; by right).
        congruence.
  - intros a. unfold get_alliance_members_online.
    destruct (alliance_groups (disconnect player_id self) !! a) as [g|] eqn:E.
    + apply disconnect_alliance_groups in E as (_ & g0 & -> & ->).
      cbn. set_solver.
    + cbn. split; [set_solver|].
      destruct (alliance_groups self !! a) as [g0|] eqn:E0; cbn;
        [|set_solver].
      intros Hin. exfalso.
      assert (Hsome : alliance_groups (disconnect player_id self) !! a
                      = Some (g0 ∖ {[player_id]})).
      { apply disconnect_alliance_groups. split; [set_solver|].
        by exists g0. }
      congruence.
Qed.

Lemma disconnect_frame_witness :
  let self' := disconnect 7 Sample.lobby in
  active_connections self' !! 8 = Some 101 ∧
  8 ∈ get_players_at_location 5 self' ∧
  8 ∈ get_alliance_members_online 3 self'.
Proof.
  destruct (disconnect_frame Sample.lobby 7 8 ltac:(lia))
    as (Ha & _ & Hl & Hal).
  cbv zeta in *.
  split; [etransitivity; [exact Ha|vm_compute; reflexivity]|].
  split; [apply Hl | apply Hal]; vm_compute; set_solver.
Defined.

Lemma send_personal_message_lookup p (ok : bool) self q :
  active_connections (send_personal_message p ok self) !! q
  = (if decide (q = p ∧ ok = false) then None
     else active_connections self !! q)
  ∧ player_locations (send_personal_message p ok self) !! q
    = (if decide (q = p ∧ ok = false
                  ∧ is_Some (active_connections self !! p))
       then None else player_locations self !! q).
Proof.
  unfold send_personal_message.
  destruct (active_connections self !! p) as [ws|] eqn:Hp.
  - destruct ok.
    + split; case_decide; [naive_solver|done|naive_solver|done].
    + rewrite disconnect_active_connections, disconnect_player_locations,
        !lookup_delete.
      split; repeat case_decide; try reflexivity; exfalso; naive_solver.
  - split; case_decide as H; [|done| |done].
    + destruct H as [-> _]. done.
    + destruct H as (_ & _ & Hs). by apply is_Some_None in Hs.
Qed.

Lemma send_each_lookup (send_ok : Z → bool) (players : list Z) self q :
  active_connections (send_each send_ok players self) !! q
  = (if decide (q ∈ players ∧ send_ok q = false) then None
     else active_connections self !! q)
  ∧ player_locations (send_each send_ok players self) !! q
    = (if decide (q ∈ players ∧ send_ok q = false
                  ∧ is_Some (active_connections self !! q))
       then None else player_locations self !! q).
Proof.
  revert self. induction players as [|p l IH]; intros self.
  - cbn. split; case_decide as H; try done;
      destruct H as [H _]; by apply elem_of_nil in H.
  - cbn [send_each foldl].
    fold (send_each send_ok l
            (send_personal_message p (send_ok p) self)).
    destruct (IH (send_personal_message p (send_ok p) self)) as [IHa IHl].
    destruct (send_personal_message_lookup p (send_ok p) self q)
      as [Ha Hl].
    rewrite IHa, IHl, Ha, Hl. clear IH IHa IHl Ha Hl.
    split; repeat case_decide; try reflexivity; exfalso;
      rewrite ?elem_of_cons in *; naive_solver.
Qed.

Lemma send_each_reachable (send_ok : Z → bool) (players : list Z) self :
  reachable self → reachable (send_each send_ok players self).
Proof.
  revert self. induction players as [|p l IH]; intros self Hr; [done|].
  cbn [send_each foldl]. apply IH. by constructor.
Qed.

(** X25: a broadcast drops exactly the broken channels.  After
    [broadcast_to_location], in any reachable state, a player has lost
    its connection if and only if it was among the players to notify
    and the write to its channel failed (or it had none to begin with);
    every other connection is as before.  A connected recipient whose
    write failed is gone from [player_locations] and from every location
    group.  The players to notify are the members of the location's
    group, less [exclude_player] when that is a non-zero id: player 0
    cannot be excluded. *)
Theorem broadcast_drops_broken_channels self (location_id : Z)
    (exclude_player : option Z) (send_ok : Z → bool) (q : Z) :
  reachable self →
  let recipients :=
    players_to_notify (get_players_at_location location_id self)
                      exclude_player in
  let self' :=
    broadcast_to_location location_id exclude_player send_ok self in
  reachable self' ∧
  active_connections self' !! q
  = (if decide (q ∈ recipients ∧ send_ok q = false) then None
     else active_connections self !! q) ∧
  (q ∈ recipients → send_ok q = false →
   is_Some (active_connections self !! q) →
   player_locations self' !! q = None
   ∧ ∀ l, q ∉ get_players_at_location l self') ∧
  players_to_notify (get_players_at_location location_id self) (Some 0)
  = get_players_at_location location_id self ∧
  (∀ x, x ≠ 0 →
        players_to_notify (get_players_at_location location_id self) (Some x)
        = get_players_at_location location_id self ∖ {[x]}).
Proof.
  intros Hr. cbv zeta.
  assert (Hsplit :
    broadcast_to_location location_id exclude_player send_ok self
    = send_each send_ok
        (elements (players_to_notify
                     (get_players_at_location location_id self)
                     exclude_player)) self).
  { unfold broadcast_to_location, get_players_at_location.
    destruct (location_groups self !! location_id) as [g|]; [done|].
    cbn [default].
    assert (players_to_notify ∅ exclude_player = ∅) as ->.
    { unfold players_to_notify. destruct exclude_player; [|done].
      destruct (Py.truthy _); [set_solver|done]. }
    by rewrite elements_empty. }
  rewrite Hsplit.
  set (recipients := players_to_notify _ exclude_player).
  assert (Hr' : reachable (send_each send_ok (elements recipients) self))
    by by apply send_each_reachable.
  destruct (send_each_lookup send_ok (elements recipients) self q)
    as [Ha Hl].
  split; [exact Hr'|]. split; [|split; [|split]].
  - rewrite Ha. repeat case_decide; try reflexivity; exfalso;
      rewrite ?elem_of_elements in *; naive_solver.
  - intros Hin Hfail Hconn.
    assert (Hnone : player_locations
                      (send_each send_ok (elements recipients) self) !! q
                    = None).
    { rewrite Hl. case_decide as H; [done|]. exfalso. apply H.
      split; [by apply elem_of_elements|done]. }
    split; [exact Hnone|]. intros l Hq.
    apply (registry_location_exact_aux _ _ _ Hr') in Hq. congruence.
  - reflexivity.
  - intros x Hx. unfold players_to_notify. cbn [Py.truthy].
    apply Z.eqb_neq in Hx. by rewrite Hx.
Qed.

Lemma broadcast_drops_broken_channels_witness :
  let self' :=
    broadcast_to_location 5 None (λ p, negb (p =? 7)) Sample.lobby in
  active_connections self' !! 7 = None ∧
  active_connections self' !! 8 = Some 101 ∧
  (∀ l, 7 ∉ get_players_at_location l self').
Proof.
  assert (Hr : reachable Sample.lobby)
    by (unfold Sample.lobby; repeat constructor).
  cbv zeta. split; [|split].
  - destruct (broadcast_drops_broken_channels Sample.lobby 5 None
                (λ p, negb (p =? 7)) 7 Hr) as (_ & Ha & _).
    etransitivity; [exact Ha|]. vm_compute. reflexivity.
  - destruct (broadcast_drops_broken_channels Sample.lobby 5 None
                (λ p, negb (p =? 7)) 8 Hr) as (_ & Ha & _).
    etransitivity; [exact Ha|]. vm_compute. reflexivity.
  - destruct (broadcast_drops_broken_channels Sample.lobby 5 None
                (λ p, negb (p =? 7)) 7 Hr) as (_ & _ & Hgone & _).
    apply Hgone; [vm_compute; set_solver | reflexivity
                 | vm_compute; eauto].
Defined.

Lemma members_discard key p groups k :
  default ∅ (discard_from key p groups !! k)
  = if decide (k = key) then default (∅ : gset Z) (groups !! k) ∖ {[p]}
    else default ∅ (groups !! k).
Proof.
  destruct (discard_from key p groups !! k) as [g|] eqn:E.
  - apply discard_from_Some in E as [(-> & _ & g0 & -> & ->)|[Hne ->]];
      case_decide; done.
  - case_decide as Hk.
    + subst k. destruct (groups !! key) as [g0|] eqn:E0; cbn.
      * unfold discard_from in E. rewrite E0 in E. cbv zeta in E.
        case_decide as Hempty; [by rewrite Hempty|].
        by rewrite lookup_insert_eq in E.
      * set_solver.
    + destruct (groups !! k) as [g0|] eqn:E0; [|done]. exfalso.
      assert (discard_from key p groups !! k = Some g0)
        by (apply discard_from_Some; by right).
      congruence.
Qed.

Lemma members_add key p groups k :
  default ∅ (add_to key p groups !! k)
  = if decide (k = key) then default (∅ : gset Z) (groups !! k) ∪ {[p]}
    else default ∅ (groups !! k).
Proof.
  unfold add_to. case_decide as Hk.
  - subst k. by rewrite lookup_insert_eq.
  - by rewrite lookup_insert_ne.
Qed.

(** X26: who is in which alliance group after
    [update_player_alliance].  In any state, a player [q] is a member of
    alliance [a] afterwards exactly when it is the updated player and
    [a] is the new, non-zero alliance id, or it was a member before and
    is not the updated player leaving [a] as the old, non-zero alliance
    id.  So an id of 0 or [None] joins or leaves nothing, other players
    never move, and a player updated without its old alliance stays in
    it; no group that was non-empty becomes empty. *)
Theorem update_player_alliance_members self (player_id : Z)
    (alliance_id old_alliance_id : option Z) (q a : Z) :
  let self' :=
    update_player_alliance player_id alliance_id old_alliance_id self in
  (q ∈ get_alliance_members_online a self' ↔
   (q = player_id ∧ alliance_id = Some a ∧ a ≠ 0)
   ∨ (q ∈ get_alliance_members_online a self
      ∧ ¬ (q = player_id ∧ old_alliance_id = Some a ∧ a ≠ 0))) ∧
  (groups_nonempty (alliance_groups self) →
   groups_nonempty (alliance_groups self')) ∧
  active_connections self' = active_connections self ∧
  player_locations self' = player_locations self ∧
  location_groups self' = location_groups self.
Proof.
  cbv zeta. split; [|split; [|done]].
  - unfold get_alliance_members_online, update_player_alliance.
    cbn [alliance_groups].
    destruct alliance_id as [n|], old_alliance_id as [o|];
      cbn [Py.truthy];
      repeat match goal with
             | |- context [negb (?x =? 0)] =>
                 destruct (Z.eqb_spec x 0); cbn [negb]
             end;
      rewrite ?members_add, ?members_discard;
      repeat case_decide; subst;
      rewrite ?elem_of_union, ?elem_of_difference, ?elem_of_singleton;
      naive_solver.
  - intros Hne. unfold update_player_alliance. cbn [alliance_groups].
    destruct alliance_id as [n|], old_alliance_id as [o|];
      cbn [Py.truthy];
      repeat match goal with
             | |- context [negb (?x =? 0)] =>
                 destruct (Z.eqb_spec x 0); cbn [negb]
             end;
      auto using add_to_nonempty, discard_from_nonempty.
Qed.

Lemma update_player_alliance_members_witness :
  let self' := update_player_alliance 7 (Some 4) None Sample.lobby in
  7 ∈ get_alliance_members_online 4 self' ∧
  7 ∈ get_alliance_members_online 3 self' ∧
  groups_nonempty (alliance_groups self').
Proof.
  pose proof (reachable_ok Sample.lobby
                ltac:(unfold Sample.lobby; repeat constructor))
    as (_ & Hne & _).
  cbv zeta. split; [|split].
  - apply (update_player_alliance_members Sample.lobby 7 (Some 4) None 7 4).
    left. by repeat split.
  - apply (update_player_alliance_members Sample.lobby 7 (Some 4) None 7 3).
    right. split; [vm_compute; set_solver|]. by intros (_ & [=] & _).
  - by apply (update_player_alliance_members Sample.lobby 7 (Some 4) None 7 4).
Defined.

End RegistryExtras.
